(** * The IPCD client (clients/python/src/ipcdclient/client.py)

    A shallow embedding of the Python client: the values [json.dumps]
    accepts, the [Device] and [IpcdClient] objects held by reference in a
    store, the client's public operations as computations over that store,
    and the [connect_loop] coroutine with its reader and writer as a step
    function of the event loop. *)

From Stdlib Require Import ZArith String Ascii DecimalString DecimalFacts DecimalPos.
From stdpp Require Import gmap strings list.

Set Warnings "-register-all".

(** ** Exceptions *)

(** The exceptions that cross a function boundary in client.py, by their
    Python class.  [MalformedCommand] and [UnsupportedCommand] are the two
    errors of the command module. *)
Inductive exn : Type :=
| ValueError (msg : string)
| TypeError (msg : string)
| AttributeError (msg : string)
| IndexError (msg : string)
| JSONDecodeError
| MalformedCommand
| UnsupportedCommand.

(** ** Python values and the json codec *)

(** The Python values that reach [json.dumps] and come out of [json.loads].
    A [str] is a [string] whose characters are the code points U+0000 to
    U+00FF; a [dict] is kept in insertion order with [str] keys.
    [PObject cls] is an instance of a class the encoder has no rule for
    (a [set], [bytes], [object()] ...).  Floats are left out. *)
Inductive pyval : Type :=
| PNone
| PBool (b : bool)
| PInt (z : Z)
| PStr (s : string)
| PList (l : list pyval)
| PDict (kv : list (string * pyval))
| PObject (cls : string).

Module json.

Definition dquote : ascii := "034"%char.
Definition backslash : ascii := "092"%char.

(** Reads a text written with apostrophes as the same text with double
    quotes, so that JSON literals stay legible below. *)
Fixpoint text (s : string) : string :=
  match s with
  | EmptyString => EmptyString
  | String c r => String (if Ascii.eqb c "'"%char then dquote else c) (text r)
  end.

Definition hex_digit (n : nat) : ascii :=
  ascii_of_nat (if (n <? 10)%nat then 48 + n else 87 + n).

(** [ESCAPE_ASCII] of json.encoder: the two-character escapes, and
    [\u00xx] for every other character outside space..tilde. *)
Definition escape_char (c : ascii) : string :=
  let n := nat_of_ascii c in
  if Ascii.eqb c dquote then String backslash (String dquote "")
  else if Ascii.eqb c backslash then String backslash (String backslash "")
  else if (n =? 10)%nat then String backslash "n"
  else if (n =? 13)%nat then String backslash "r"
  else if (n =? 9)%nat then String backslash "t"
  else if (n =? 12)%nat then String backslash "f"
  else if (n =? 8)%nat then String backslash "b"
  else if ((32 <=? n) && (n <=? 126))%nat then String c ""
  else String backslash
         ("u00" +:+ String (hex_digit (n / 16)%nat) (String (hex_digit (n mod 16)%nat) "")).

Fixpoint escape (s : string) : string :=
  match s with
  | EmptyString => EmptyString
  | String c r => escape_char c +:+ escape r
  end.

Definition encode_str (s : string) : string :=
  String dquote (escape s +:+ String dquote "").

Definition encode_int (z : Z) : string := NilZero.string_of_int (Z.to_int z).

Fixpoint join (sep : string) (l : list string) : string :=
  match l with
  | [] => ""
  | [x] => x
  | x :: r => x +:+ sep +:+ join sep r
  end.

(** [json.dumps(v)] with the default arguments: separators [", "] and
    [": "], [ensure_ascii], keys in insertion order; [TypeError] for an
    object without an encoding.  What the interpreter refuses for its
    size, nesting beyond the recursion limit and integers beyond the
    digit limit, is not modelled: see [within_limits] below. *)
Fixpoint dumps (v : pyval) : exn + string :=
  match v with
  | PNone => inr "null"
  | PBool true => inr "true"
  | PBool false => inr "false"
  | PInt z => inr (encode_int z)
  | PStr s => inr (encode_str s)
  | PList l =>
      match (fix items (l : list pyval) : exn + list string :=
               match l with
               | [] => inr []
               | x :: r =>
                   match dumps x with
                   | inl e => inl e
                   | inr sx =>
                       match items r with
                       | inl e => inl e
                       | inr sr => inr (sx :: sr)
                       end
                   end
               end) l with
      | inl e => inl e
      | inr ss => inr ("[" +:+ join ", " ss +:+ "]")
      end
  | PDict kv =>
      match (fix items (kv : list (string * pyval)) : exn + list string :=
               match kv with
               | [] => inr []
               | (k, x) :: r =>
                   match dumps x with
                   | inl e => inl e
                   | inr sx =>
                       match items r with
                       | inl e => inl e
                       | inr sr => inr ((encode_str k +:+ ": " +:+ sx) :: sr)
                       end
                   end
               end) kv with
      | inl e => inl e
      | inr ss => inr ("{" +:+ join ", " ss +:+ "}")
      end
  | PObject cls =>
      inl (TypeError ("Object of type " +:+ cls +:+ " is not JSON serializable"))
  end.

(** *** Decoding *)

Definition is_ws (c : ascii) : bool :=
  let n := nat_of_ascii c in
  ((n =? 32) || (n =? 9) || (n =? 10) || (n =? 13))%nat.

Fixpoint skip_ws (s : string) : string :=
  match s with
  | String c r => if is_ws c then skip_ws r else s
  | EmptyString => s
  end.

Definition digit_val (c : ascii) : option nat :=
  let n := nat_of_ascii c in
  if ((48 <=? n) && (n <=? 57))%nat then Some (n - 48)%nat else None.

Definition hex_val (c : ascii) : option nat :=
  let n := nat_of_ascii c in
  if ((48 <=? n) && (n <=? 57))%nat then Some (n - 48)%nat
  else if ((97 <=? n) && (n <=? 102))%nat then Some (n - 87)%nat
  else if ((65 <=? n) && (n <=? 70))%nat then Some (n - 55)%nat
  else None.

Fixpoint read_digits (acc : Z) (s : string) : Z * string :=
  match s with
  | String c r =>
      match digit_val c with
      | Some d => read_digits (10 * acc + Z.of_nat d)%Z r
      | None => (acc, s)
      end
  | EmptyString => (acc, s)
  end.

(** The integer part of a number: an optional minus sign, then a single
    zero or a run of digits that does not start with zero.  A following
    fraction or exponent would make it a float, which [pyval] does not
    hold: the scan gives up there. *)
Definition scan_int (s : string) : option (pyval * string) :=
  let '(neg, s1) :=
    match s with
    | String "-"%char r => (true, r)
    | _ => (false, s)
    end in
  match s1 with
  | String c r =>
      match digit_val c with
      | None => None
      | Some d =>
          let '(n, rest) :=
            if (d =? 0)%nat then (0%Z, r) else read_digits (Z.of_nat d) r in
          match rest with
          | String "."%char _ | String "e"%char _ | String "E"%char _ => None
          | _ => Some (PInt (if neg then - n else n)%Z, rest)
          end
      end
  | EmptyString => None
  end.

(** [scanstring] in strict mode, entered after the opening quote. *)
Fixpoint scanstring (s : string) : option (string * string) :=
  let cons c r :=
    match scanstring r with
    | Some (str, rest) => Some (String c str, rest)
    | None => None
    end in
  match s with
  | EmptyString => None
  | String c r =>
      if Ascii.eqb c dquote then Some (EmptyString, r)
      else if Ascii.eqb c backslash then
        match r with
        | String "u"%char (String h1 (String h2 (String h3 (String h4 r')))) =>
            match hex_val h1, hex_val h2, hex_val h3, hex_val h4 with
            | Some 0%nat, Some 0%nat, Some a, Some b =>
                match scanstring r' with
                | Some (str, rest) => Some (String (ascii_of_nat (16 * a + b)) str, rest)
                | None => None
                end
            | _, _, _, _ => None
            end
        | String e r' =>
            let plain (c' : ascii) :=
              match scanstring r' with
              | Some (str, rest) => Some (String c' str, rest)
              | None => None
              end in
            if Ascii.eqb e dquote then plain dquote
            else if Ascii.eqb e backslash then plain backslash
            else if Ascii.eqb e "/"%char then plain "/"%char
            else if Ascii.eqb e "b"%char then plain "008"%char
            else if Ascii.eqb e "f"%char then plain "012"%char
            else if Ascii.eqb e "n"%char then plain "010"%char
            else if Ascii.eqb e "r"%char then plain "013"%char
            else if Ascii.eqb e "t"%char then plain "009"%char
            else None
        | EmptyString => None
        end
      else if (nat_of_ascii c <? 32)%nat then None
      else
        match scanstring r with
        | Some (str, rest) => Some (String c str, rest)
        | None => None
        end
  end.

(** [d[k] = v] on an insertion-ordered dict. *)
Fixpoint dict_set (k : string) (v : pyval) (d : list (string * pyval))
  : list (string * pyval) :=
  match d with
  | [] => [(k, v)]
  | (k', v') :: r =>
      if String.eqb k k' then (k, v) :: r else (k', v') :: dict_set k v r
  end.

Definition dict_of_pairs (pairs : list (string * pyval)) : list (string * pyval) :=
  fold_left (fun d kv => dict_set (fst kv) (snd kv) d) pairs [].

(** [scan_once] with [JSONArray] and [JSONObject]; [fuel] bounds the
    nesting depth. *)
Fixpoint scan_once (fuel : nat) (s : string) : option (pyval * string) :=
  match fuel with
  | O => None
  | S fuel =>
      match s with
      | String "n"%char (String "u"%char (String "l"%char (String "l"%char r))) =>
          Some (PNone, r)
      | String "t"%char (String "r"%char (String "u"%char (String "e"%char r))) =>
          Some (PBool true, r)
      | String "f"%char (String "a"%char (String "l"%char (String "s"%char
          (String "e"%char r)))) =>
          Some (PBool false, r)
      | String "["%char r =>
          match skip_ws r with
          | String "]"%char rest => Some (PList [], rest)
          | r1 =>
              match scan_array fuel r1 with
              | Some (vs, rest) => Some (PList vs, rest)
              | None => None
              end
          end
      | String "{"%char r =>
          match skip_ws r with
          | String "}"%char rest => Some (PDict [], rest)
          | r1 =>
              match scan_object fuel r1 with
              | Some (pairs, rest) => Some (PDict (dict_of_pairs pairs), rest)
              | None => None
              end
          end
      | String c r =>
          if Ascii.eqb c dquote then
            match scanstring r with
            | Some (str, rest) => Some (PStr str, rest)
            | None => None
            end
          else scan_int s
      | EmptyString => None
      end
  end
with scan_array (fuel : nat) (s : string) : option (list pyval * string) :=
  match fuel with
  | O => None
  | S fuel =>
      match scan_once fuel s with
      | Some (v, rest) =>
          match skip_ws rest with
          | String "]"%char rest' => Some ([v], rest')
          | String ","%char rest' =>
              match scan_array fuel (skip_ws rest') with
              | Some (vs, rest'') => Some (v :: vs, rest'')
              | None => None
              end
          | _ => None
          end
      | None => None
      end
  end
with scan_object (fuel : nat) (s : string) : option (list (string * pyval) * string) :=
  match fuel with
  | O => None
  | S fuel =>
      match s with
      | String c r =>
          if Ascii.eqb c dquote then
            match scanstring r with
            | Some (k, rest) =>
                match skip_ws rest with
                | String ":"%char rest1 =>
                    match scan_once fuel (skip_ws rest1) with
                    | Some (v, rest2) =>
                        match skip_ws rest2 with
                        | String "}"%char rest3 => Some ([(k, v)], rest3)
                        | String ","%char rest3 =>
                            match scan_object fuel (skip_ws rest3) with
                            | Some (kvs, rest4) => Some ((k, v) :: kvs, rest4)
                            | None => None
                            end
                        | _ => None
                        end
                    | None => None
                    end
                | _ => None
                end
            | None => None
            end
          else None
      | EmptyString => None
      end
  end.

(** [json.loads(s)] on the texts whose values [pyval] holds: the
    literals, integers, strings with escapes up to [ÿ], arrays and
    objects.  Every other text raises [JSONDecodeError] here; for a float
    literal, [NaN], [Infinity] or an escape above [ÿ] the library
    returns a value instead, which this model does not represent. *)
Definition loads (s : string) : exn + pyval :=
  match scan_once (S (String.length s)) (skip_ws s) with
  | Some (v, rest) =>
      match skip_ws rest with
      | EmptyString => inr v
      | _ => inl JSONDecodeError
      end
  | None => inl JSONDecodeError
  end.

End json.

(** ** Objects and the store *)

(** Objects are held by address, as Python holds them: the registry of a
    client is a list of addresses of [Device] objects, and a device's
    back-reference is the address of a client. *)
Definition ref := nat.
Definition cref := nat.

Definition IPCD_VERSION : string := "1.0".

(** [not x] for an optional [str] argument: [None] and the empty string
    are the false ones. *)
Definition falsy (x : option string) : bool :=
  match x with
  | None => true
  | Some EmptyString => true
  | Some (String _ _) => false
  end.

Module Device.

(** The attributes of a [Device] instance.  [ipcd_version = None] is an
    instance on which the attribute was never assigned. *)
Record t : Type := mk {
  vendor : string;
  model : string;
  sn : string;
  ipcd_version : option string;
  _client : option cref
}.

Definition __init__ (vendor model sn : string) (ipcd_version : option string) : t :=
  {| vendor := vendor;
     model := model;
     sn := sn;
     ipcd_version := if falsy ipcd_version then Some IPCD_VERSION else None;
     _client := None |}.

Definition to_obj (self : t) : exn + pyval :=
  match ipcd_version self with
  | None => inl (AttributeError "'Device' object has no attribute 'ipcd_version'")
  | Some v =>
      inr (PDict [("ipcdver", PStr v);
                  ("vendor", PStr (vendor self));
                  ("model", PStr (model self));
                  ("sn", PStr (sn self))])
  end.

Definition _set_client (self : t) (client : cref) : t :=
  {| vendor := vendor self;
     model := model self;
     sn := sn self;
     ipcd_version := ipcd_version self;
     _client := Some client |}.

Definition get_client (self : t) : option cref := _client self.

End Device.

Module IpcdClient.

(** The attributes of an [IpcdClient] instance: [devices] in registration
    order, [queue] with the oldest message first.  ([pool] belongs to the
    HTTP report, which the second definition of [report] replaces.) *)
Record t : Type := mk {
  hostname : string;
  ipcd_version : string;
  devices : list ref;
  queue : list string
}.

Inductive net_event : Type :=
| Opened (url : string)
| Frame (payload : string).

(** The store: the live objects, the records handed to the module's
    logger, and what went over the network, oldest first. *)
Record World : Type := mkWorld {
  devs : gmap ref Device.t;
  clients : gmap cref t;
  log : list string;
  wire : list net_event
}.

(** A computation changes the store and returns or raises; what it did
    before raising stays done. *)
Definition M (A : Type) : Type := World -> (exn + A) * World.

Definition ret {A} (a : A) : M A := fun w => (inr a, w).
Definition raise {A} (e : exn) : M A := fun w => (inl e, w).
Definition bind {A B} (m : M A) (k : A -> M B) : M B :=
  fun w =>
    match m w with
    | (inl e, w') => (inl e, w')
    | (inr a, w') => k a w'
    end.
Definition lift {A} (r : exn + A) : M A := fun w => (r, w).

Notation "x <- m ;; k" := (bind m (fun x => k))
  (at level 100, m at next level, right associativity).
Notation "m ;;; k" := (bind m (fun _ => k))
  (at level 100, right associativity).

(** Attribute access through an address that holds no object of the
    class raises, as it does on an object of another class. *)
Definition the_device (device : ref) : M Device.t :=
  fun w =>
    match devs w !! device with
    | Some d => (inr d, w)
    | None => (inl (AttributeError "not a Device"), w)
    end.

Definition the_client (self : cref) : M t :=
  fun w =>
    match clients w !! self with
    | Some c => (inr c, w)
    | None => (inl (AttributeError "not an IpcdClient"), w)
    end.

Definition store_device (device : ref) (d : Device.t) : M unit :=
  fun w => (inr tt, mkWorld (<[device := d]> (devs w)) (clients w) (log w) (wire w)).

Definition store_client (self : cref) (c : t) : M unit :=
  fun w => (inr tt, mkWorld (devs w) (<[self := c]> (clients w)) (log w) (wire w)).

(** [self.logger.info(fmt, ...)], with the formatted record. *)
Definition logger_info (record : string) : M unit :=
  fun w => (inr tt, mkWorld (devs w) (clients w) (log w ++ [record]) (wire w)).

(** [self.queue.put_nowait(payload)] on the unbounded queue. *)
Definition put_nowait (self : cref) (payload : string) : M unit :=
  c <- the_client self ;;
  store_client self (mk (hostname c) (ipcd_version c) (devices c) (queue c ++ [payload])).

Definition _validate_hostname (hostname : string) : M unit :=
  if String.eqb hostname "" then raise (ValueError "hostname must be set")
  else ret tt.

(** [IpcdClient(hostname)]: the hostname is validated before anything is
    assigned; the result is the new object's address.  The connection pool
    and the stream handler that the constructor also sets up touch neither
    the network nor the records of the logger. *)
Definition __init__ (hostname : string) : M cref :=
  _validate_hostname hostname ;;;
  fun w =>
    let self := fresh (dom (clients w)) in
    (inr self,
     mkWorld (devs w) (<[self := mk hostname IPCD_VERSION [] []]> (clients w))
             (log w) (wire w)).

(** [IpcdClient.Device(vendor, model, sn, ipcd_version)]. *)
Definition new_device (vendor model sn : string) (ipcd_version : option string) : M ref :=
  fun w =>
    let device := fresh (dom (devs w)) in
    (inr device,
     mkWorld (<[device := Device.__init__ vendor model sn ipcd_version]> (devs w))
             (clients w) (log w) (wire w)).

Definition add_device (self : cref) (device : ref) : M unit :=
  d <- the_device device ;;
  store_device device (Device._set_client d self) ;;;
  c <- the_client self ;;
  store_client self (mk (hostname c) (ipcd_version c) (devices c ++ [device]) (queue c)).

Definition on_value_change (self : cref) (device : ref) (message : pyval) : M unit :=
  c <- the_client self ;;
  d <- the_device device ;;
  let data :=
    PDict [("device", PDict [("ipcdver", PStr (ipcd_version c));
                             ("vendor", PStr (Device.vendor d));
                             ("model", PStr (Device.model d));
                             ("sn", PStr (Device.sn d))]);
           ("events", PList [PStr "onValueChanges"]);
           ("valueChanges", message)] in
  payload <- lift (json.dumps data) ;;
  logger_info ("putting " +:+ payload +:+ " on the queue") ;;;
  put_nowait self payload.

(** The second [report] of the class body, the one the name is bound to. *)
Definition report (self : cref) (device : ref) (message : pyval) : M unit :=
  c <- the_client self ;;
  d <- the_device device ;;
  let data :=
    PDict [("device", PDict [("ipcdver", PStr (ipcd_version c));
                             ("vendor", PStr (Device.vendor d));
                             ("model", PStr (Device.model d));
                             ("sn", PStr (Device.sn d))]);
           ("report", message)] in
  payload <- lift (json.dumps data) ;;
  logger_info ("report: putting " +:+ payload +:+ " on the queue") ;;;
  put_nowait self payload.

Definition send (self : cref) (device : ref) (message : pyval) : M unit :=
  on_value_change self device message.

(** [get_report_url(device)]: the hostname, then the path of the
    on-demand report with the client's version and the device's vendor,
    model and serial, none of them escaped. *)
Definition get_report_url (self : cref) (device : ref) : M string :=
  c <- the_client self ;;
  d <- the_device device ;;
  ret (hostname c +:+ "/ipcd/" +:+ ipcd_version c +:+ "/report/" +:+ Device.vendor d
       +:+ "/" +:+ Device.model d +:+ "/" +:+ Device.sn d).

(** *** connect *)

(** [await websocket.send(payload)]. *)
Definition websocket_send (payload : string) : M unit :=
  fun w => (inr tt, mkWorld (devs w) (clients w) (log w) (wire w ++ [Frame payload])).

(** The frames that went out, without the connection records. *)
Definition frames (w : World) : list string :=
  omap (fun ev => match ev with Frame p => Some p | Opened _ => None end) (wire w).

(** The body of [for device in self.devices] in [connect_loop]. *)
Definition announce (self : cref) (device : ref) : M unit :=
  c <- the_client self ;;
  d <- the_device device ;;
  let data :=
    PDict [("device", PDict [("ipcdver", PStr (ipcd_version c));
                             ("vendor", PStr (Device.vendor d));
                             ("model", PStr (Device.model d));
                             ("sn", PStr (Device.sn d))]);
           ("events", PList [PStr "onBoot"; PStr "onConnect"])] in
  payload <- lift (json.dumps data) ;;
  websocket_send payload.

(** A task made by [loop.create_task(self.devices[0].on_message(...))]:
    the coroutine's receiver and argument. *)
Record Task : Type := mkTask {
  target : ref;
  message : pyval
}.

(** Where [connect_loop] stands: in its [for] loop, about to take the
    element at index [i] of the registry (the list iterator's position);
    past the two [create_task] calls, waiting in [wait_closed]; or ended
    by an exception. *)
Inductive phase : Type :=
| Registering (i : nat)
| Active
| Crashed (e : exn).

Inductive status : Type :=
| Running
| Failed (e : exn).

(** The event loop of one [connect] with the store it works on.
    [reader] and [writer] are the two looping tasks, [pending] the
    dispatch tasks created and not yet run, [finished] the ones that ran,
    each with what it returned or raised.  The socket stays open: a send
    or a receive that fails is not part of this model. *)
Record Session : Type := mkSession {
  world : World;
  self : cref;
  ph : phase;
  reader_task : status;
  writer_task : status;
  pending : list Task;
  finished : list (Task * (exn + unit))
}.

Definition with_world (s : Session) (w : World) : Session :=
  mkSession w (self s) (ph s) (reader_task s) (writer_task s) (pending s) (finished s).

Definition with_ph (s : Session) (p : phase) : Session :=
  mkSession (world s) (self s) p (reader_task s) (writer_task s) (pending s) (finished s).

(** What a caller's thread may do while the loop runs: the calls that
    put a message on the queue.  The registry is filled before [connect]. *)
Inductive call : Type :=
| OnValueChange (device : ref) (message : pyval)
| Report (device : ref) (message : pyval)
| Send (device : ref) (message : pyval).

Definition perform (self : cref) (op : call) : M unit :=
  match op with
  | OnValueChange device message => on_value_change self device message
  | Report device message => report self device message
  | Send device message => send self device message
  end.

(** One scheduling decision: [connect_loop] runs to its next [await],
    the reader wakes with a received frame, the writer wakes, the
    pending task at a position runs, or a caller's thread makes a call. *)
Inductive event : Type :=
| ConnectLoop
| Reader (msg : string)
| Writer
| RunTask (k : nat)
| Caller (op : call).

Section connect.

Context {Command : Type}.

(** [json.loads] of the standard library. *)
Variable loads : string -> exn + pyval.

(** Modelled from the spec: command.py is not among the sources.
    [from_payload] decodes a payload into a command or fails (a
    missing or unrecognized discriminator is [MalformedCommand]);
    [apply] runs the command on the target device or fails (no handler
    is [UnsupportedCommand]), its effects staying within the device's
    own handlers. *)
Variable from_payload : pyval -> exn + Command.
Variable apply : Command -> Device.t -> exn + unit.

(** [Device.on_message]: the body the task runs, in one piece (it has
    no [await]). *)
Definition on_message (self : Device.t) (message : pyval) : exn + unit :=
  match from_payload message with
  | inl e => inl e
  | inr command => apply command self
  end.

(** [connect]: the thread's loop enters [connect_loop] and opens the
    socket. *)
Definition connect (self : cref) (w : World) : Session :=
  match clients w !! self with
  | Some c =>
      mkSession
        (mkWorld (devs w) (clients w) (log w)
                 (wire w ++ [Opened (hostname c +:+ "/ipcd/1.0")]))
        self (Registering 0) Running Running [] []
  | None =>
      mkSession w self (Crashed (AttributeError "not an IpcdClient"))
                Running Running [] []
  end.

(** [connect_loop] up to its next suspension: one turn of the [for]
    loop with its awaited send, or past the loop's end the creation of
    the reader and the writer. *)
Definition connect_loop (self : cref) (i : nat) : M phase :=
  c <- the_client self ;;
  match devices c !! i with
  | Some device => announce self device ;;; ret (Registering (S i))
  | None => ret Active
  end.

(** One turn of the loop of [reader], after [recv] returned [msg]: the
    task it creates.  The receiver [self.devices[0].on_message] is evaluated
    before the argument [json.loads(msg)]. *)
Definition reader (self : cref) (msg : string) : M Task :=
  c <- the_client self ;;
  match devices c !! 0%nat with
  | None => raise (IndexError "list index out of range")
  | Some device =>
      _ <- the_device device ;;
      message <- lift (loads msg) ;;
      ret (mkTask device message)
  end.

(** [self.queue.get()] at the moment the event loop looks: the oldest
    message, taken off the queue, or [None] while the queue is empty
    and the caller stays suspended. *)
Definition queue_get (self : cref) : M (option string) :=
  c <- the_client self ;;
  match queue c with
  | [] => ret None
  | msg :: rest =>
      store_client self (mk (hostname c) (ipcd_version c) (devices c) rest) ;;;
      ret (Some msg)
  end.

(** One turn of the loop of [writer]: the message it took and sent, or
    [None] while it waits for one. *)
Definition writer (self : cref) : M (option string) :=
  got <- queue_get self ;;
  match got with
  | None => ret None
  | Some msg => websocket_send msg ;;; ret (Some msg)
  end.

(** The queue of the session's client. *)
Definition queue_of (s : Session) : list string :=
  match clients (world s) !! self s with
  | Some c => queue c
  | None => []
  end.

(** Running a task: the coroutine's body on the object at its receiver. *)
Definition run_task (w : World) (t : Task) : exn + unit :=
  match devs w !! target t with
  | Some d => on_message d (message t)
  | None => inl (AttributeError "not a Device")
  end.

(** The session after one event, or [None] when the event cannot happen:
    [connect_loop] has left its loop, the reader or the writer does not
    exist yet or has ended, the writer finds the queue empty, or there is
    no such task.  An exception ends the coroutine it is raised in; the
    one of a caller's call goes to the caller. *)
Definition step (ev : event) (s : Session) : option Session :=
  match ev, ph s with
  | ConnectLoop, Registering i =>
      match connect_loop (self s) i (world s) with
      | (inr p, w) => Some (with_ph (with_world s w) p)
      | (inl e, w) => Some (with_ph (with_world s w) (Crashed e))
      end
  | Reader msg, Active =>
      match reader_task s with
      | Failed _ => None
      | Running =>
          match reader (self s) msg (world s) with
          | (inr t, w) =>
              Some (mkSession w (self s) Active Running (writer_task s)
                              (pending s ++ [t]) (finished s))
          | (inl e, w) =>
              Some (mkSession w (self s) Active (Failed e) (writer_task s)
                              (pending s) (finished s))
          end
      end
  | Writer, Active =>
      match writer_task s with
      | Failed _ => None
      | Running =>
          match writer (self s) (world s) with
          | (inr None, _) => None
          | (inr (Some _), w) => Some (with_world s w)
          | (inl e, w) =>
              Some (mkSession w (self s) Active (reader_task s) (Failed e)
                              (pending s) (finished s))
          end
      end
  | RunTask k, Active =>
      match pending s !! k with
      | None => None
      | Some t =>
          Some (mkSession (world s) (self s) Active (reader_task s) (writer_task s)
                          (delete k (pending s))
                          (finished s ++ [(t, run_task (world s) t)]))
      end
  | Caller op, _ =>
      Some (with_world s (snd (perform (self s) op (world s))))
  | _, _ => None
  end.

(** A schedule, event by event. *)
Fixpoint run (evs : list event) (s : Session) : option Session :=
  match evs with
  | [] => Some s
  | ev :: rest =>
      match step ev s with
      | Some s' => run rest s'
      | None => None
      end
  end.

End connect.

End IpcdClient.

(** ** The command module *)

Module command.

(** Modelled from the spec: command.py is not among the sources.  A
    command is decoded from a payload that carries a discriminator, the
    kind of the command, and is applied through the handler the device
    has for that kind.  The field that holds the discriminator and the
    kinds the server may send are fixed by the wire contract, and are
    arguments here. *)
Record Command : Type := mkCommand {
  kind : string;
  body : pyval
}.

Fixpoint dict_get (k : string) (d : list (string * pyval)) : option pyval :=
  match d with
  | [] => None
  | (k', v) :: r => if String.eqb k k' then Some v else dict_get k r
  end.

(** Modelled from the spec: decoding fails with [MalformedCommand] when
    the discriminator is missing or not a known kind. *)
Definition from_payload (field : string) (kinds : list string) (payload : pyval)
  : exn + Command :=
  match payload with
  | PDict kv =>
      match dict_get field kv with
      | Some (PStr k) =>
          if existsb (String.eqb k) kinds then inr (mkCommand k payload)
          else inl MalformedCommand
      | _ => inl MalformedCommand
      end
  | _ => inl MalformedCommand
  end.

(** Modelled from the spec: applying fails with [UnsupportedCommand] when
    the device has no handler for the kind of the command. *)
Definition apply (handlers : Device.t -> list string) (c : Command) (d : Device.t)
  : exn + unit :=
  if existsb (String.eqb (kind c)) (handlers d) then inr tt
  else inl UnsupportedCommand.

End command.

(** ** The envelopes of the specification *)

Module spec.

(** The identity sub-object [{ipcdver, vendor, model, sn}]. *)
Definition identity (ver V M S : string) : pyval :=
  PDict [("ipcdver", PStr ver); ("vendor", PStr V); ("model", PStr M); ("sn", PStr S)].

(** Value-change report. *)
Definition value_change (ver V M S : string) (changes : pyval) : pyval :=
  PDict [("device", identity ver V M S);
         ("events", PList [PStr "onValueChanges"]);
         ("valueChanges", changes)].

(** Generic report. *)
Definition report (ver V M S : string) (payload : pyval) : pyval :=
  PDict [("device", identity ver V M S); ("report", payload)].

(** Registration. *)
Definition registration (ver V M S : string) : pyval :=
  PDict [("device", identity ver V M S);
         ("events", PList [PStr "onBoot"; PStr "onConnect"])].

End spec.

Import IpcdClient.

(** ** Stores and sessions of the examples *)

Definition empty_world : World := mkWorld ∅ ∅ [] [].

(** The store of the specification's example: a client for
    [wss://example.test] and the device (Acme, X1, 123), made by the two
    constructors on an empty store. *)
Definition example_setup : M (cref * ref) :=
  self <- __init__ "wss://example.test" ;;
  device <- new_device "Acme" "X1" "123" None ;;
  ret (self, device).

Definition example_world : World := snd (example_setup empty_world).

(** The same client with two registered devices. *)
Definition registered_setup : M (cref * list ref) :=
  self <- __init__ "wss://example.test" ;;
  d1 <- new_device "Acme" "X1" "123" None ;;
  d2 <- new_device "Acme" "X2" "456" None ;;
  add_device self d1 ;;;
  add_device self d2 ;;;
  ret (self, [d1; d2]).

Definition registered_world : World := snd (registered_setup empty_world).

Definition registered_client : t := mk "wss://example.test" "1.0" [0; 1]%nat [].

(** The text of the specification's example envelope. *)
Definition example_payload : string :=
  json.text
    "{'device': {'ipcdver': '1.0', 'vendor': 'Acme', 'model': 'X1', 'sn': '123'}, 'events': ['onValueChanges'], 'valueChanges': {'temp': 72}}".

(** An instance of the command module for the examples: the discriminator
    is the field "command", the server knows two kinds and the devices
    handle one. *)
Definition example_from_payload : pyval -> exn + command.Command :=
  command.from_payload "command" ["SetParameterValues"; "GetParameterValues"].

Definition example_apply : command.Command -> Device.t -> exn + unit :=
  command.apply (fun _ => ["SetParameterValues"]).

(** The sessions of the two stores once their handshake is over. *)
Definition example_session : Session :=
  default (connect 0 registered_world)
          (run json.loads example_from_payload example_apply
               [ConnectLoop; ConnectLoop; ConnectLoop] (connect 0 registered_world)).

Definition unregistered_session : Session :=
  default (connect 0 example_world)
          (run json.loads example_from_payload example_apply
               [ConnectLoop] (connect 0 example_world)).

(** A command for the first device, and one that names the second. *)
Definition set_command : string :=
  json.text "{'command': 'SetParameterValues', 'values': {'level': 3}}".

Definition set_payload : pyval :=
  PDict [("command", PStr "SetParameterValues");
         ("values", PDict [("level", PInt 3)])].

Definition addressed_command : string :=
  json.text "{'command': 'SetParameterValues', 'device': {'vendor': 'Acme', 'model': 'X2', 'sn': '456'}}".

Definition addressed_payload : pyval :=
  PDict [("command", PStr "SetParameterValues");
         ("device", PDict [("vendor", PStr "Acme"); ("model", PStr "X2");
                           ("sn", PStr "456")])].

(** ** Vocabulary of the statements *)

(** The store after a payload went on the queue of [self] and the record
    of it went to the logger. *)
Definition enqueued_world (w : World) (self : cref) (c : t) (payload record : string)
  : World :=
  mkWorld (devs w)
          (<[self := mk (hostname c) (ipcd_version c) (devices c) (queue c ++ [payload])]>
             (clients w))
          (log w ++ [record]) (wire w).

Definition device_of (op : call) : ref :=
  match op with
  | OnValueChange device _ | Report device _ | Send device _ => device
  end.

(** The envelope a call is specified to put on the queue. *)
Definition envelope_of (ver : string) (d : Device.t) (op : call) : pyval :=
  match op with
  | OnValueChange _ message | Send _ message =>
      spec.value_change ver (Device.vendor d) (Device.model d) (Device.sn d) message
  | Report _ message =>
      spec.report ver (Device.vendor d) (Device.model d) (Device.sn d) message
  end.

(** What a call adds to the queue of [self]: the text of its envelope, or
    nothing when the call raises. *)
Definition enqueued_by (w : World) (self : cref) (op : call) : list string :=
  match clients w !! self, devs w !! device_of op with
  | Some c, Some d =>
      match json.dumps (envelope_of (ipcd_version c) d op) with
      | inr payload => [payload]
      | inl _ => []
      end
  | _, _ => []
  end.

(** The texts the callers of a schedule enqueue, in the order of their
    calls. *)
Fixpoint enqueued (w : World) (self : cref) (evs : list event) : list string :=
  match evs with
  | [] => []
  | Caller op :: rest => enqueued_by w self op ++ enqueued w self rest
  | _ :: rest => enqueued w self rest
  end.

(** [payload] is the serialized registration envelope of the device at
    [device], under the protocol version [ver]. *)
Definition announced (w : World) (ver : string) (device : ref) (payload : string) : Prop :=
  exists d,
    devs w !! device = Some d
    /\ json.dumps (spec.registration ver (Device.vendor d) (Device.model d) (Device.sn d))
       = inr payload.

(** The invariant of a session started by [connect self0] on the store
    [w], after the schedule [evs]: the registry, the devices and the
    client's configuration are those of [w]; the socket holds the
    announcements [H] made so far and then [written]; and [written]
    followed by the queue is the queue of [w] followed by what the callers
    of [evs] enqueued. *)
Definition session_inv (w : World) (self0 : cref) (c : t) (H : list string)
           (evs : list event) (s : Session) : Prop :=
  self s = self0 /\ writer_task s = Running /\ devs (world s) = devs w
  /\ exists c' written,
      clients (world s) !! self0 = Some c'
      /\ hostname c' = hostname c /\ ipcd_version c' = ipcd_version c
      /\ devices c' = devices c
      /\ written ++ queue c' = queue c ++ enqueued w self0 evs
      /\ match ph s with
         | Registering i =>
             i <= length (devices c) /\ written = []
             /\ frames (world s) = frames w ++ take i H
         | Active => frames (world s) = frames w ++ H ++ written
         | Crashed _ => False
         end.

(** ** Scripts of calls *)

(** What a program does with the classes before it connects: it builds
    clients and devices, registers devices and reports.  An exception goes
    to the caller, and the next call is made all the same. *)
Inductive api : Type :=
| NewClient (host : string)
| NewDevice (vendor model sn : string) (ver : option string)
| AddDevice (self : cref) (device : ref)
| Enqueue (self : cref) (op : call).

Definition api_call (a : api) (w : World) : World :=
  match a with
  | NewClient host => snd (__init__ host w)
  | NewDevice vendor model sn ver => snd (new_device vendor model sn ver w)
  | AddDevice self device => snd (add_device self device w)
  | Enqueue self op => snd (perform self op w)
  end.

Fixpoint api_run (script : list api) (w : World) : World :=
  match script with
  | [] => w
  | a :: rest => api_run rest (api_call a w)
  end.

(** [w'] continues [w]: the network is as it was, the log only grew,
    every client is still there with its hostname and version, its
    registry and its queue extended at their ends, and every device is
    still there with its vendor, model, serial and version, bound to a
    client if it was. *)
Record continues (w w' : World) : Prop := {
  cont_wire : wire w' = wire w;
  cont_log : log w `prefix_of` log w';
  cont_clients :
    forall k c, clients w !! k = Some c ->
      exists c', clients w' !! k = Some c'
                 /\ hostname c' = hostname c /\ ipcd_version c' = ipcd_version c
                 /\ devices c `prefix_of` devices c'
                 /\ queue c `prefix_of` queue c';
  cont_devices :
    forall r d, devs w !! r = Some d ->
      exists d', devs w' !! r = Some d'
                 /\ Device.vendor d' = Device.vendor d
                 /\ Device.model d' = Device.model d
                 /\ Device.sn d' = Device.sn d
                 /\ Device.ipcd_version d' = Device.ipcd_version d
                 /\ (is_Some (Device.get_client d) -> is_Some (Device.get_client d'))
}.

(** What the constructors and [add_device] establish: every client has
    the version "1.0" and a hostname that is not empty, and every entry of
    a registry is a device that is bound to a client. *)
Definition well_formed (w : World) : Prop :=
  forall k c, clients w !! k = Some c ->
    ipcd_version c = "1.0" /\ hostname c <> ""
    /\ Forall (fun r => exists d, devs w !! r = Some d /\ is_Some (Device.get_client d))
              (devices c).

(** Two clients and one device, not yet registered. *)
Definition two_clients_setup : M (cref * cref * ref) :=
  a <- __init__ "wss://a.example.test" ;;
  b <- __init__ "wss://b.example.test" ;;
  device <- new_device "Acme" "X1" "123" None ;;
  ret (a, b, device).

Definition two_clients_world : World := snd (two_clients_setup empty_world).

(** A script that builds the store of the example and reports twice. *)
Definition example_script : list api :=
  [NewClient "wss://example.test";
   NewDevice "Acme" "X1" "123" None;
   AddDevice 0 0;
   Enqueue 0 (OnValueChange 0 (PDict [("temp", PInt 72)]));
   Enqueue 0 (Report 0 (PStr "ok"))].

(** Whether a text has a slash in it. *)
Fixpoint has_slash (s : string) : bool :=
  match s with
  | EmptyString => false
  | String c r => Ascii.eqb c "/"%char || has_slash r
  end.

(** The number of frames a schedule lets the reader receive. *)
Fixpoint frames_received (evs : list event) : nat :=
  match evs with
  | [] => 0
  | Reader _ :: rest => S (frames_received rest)
  | _ :: rest => frames_received rest
  end.

(** The record a call hands to the logger for the payload it enqueues. *)
Definition record_of (op : call) (payload : string) : string :=
  match op with
  | OnValueChange _ _ | Send _ _ => "putting " +:+ payload +:+ " on the queue"
  | Report _ _ => "report: putting " +:+ payload +:+ " on the queue"
  end.

(** The records the callers of a schedule hand to the logger, in the
    order of their calls. *)
Fixpoint logged (w : World) (self : cref) (evs : list event) : list string :=
  match evs with
  | [] => []
  | Caller op :: rest => map (record_of op) (enqueued_by w self op) ++ logged w self rest
  | _ :: rest => logged w self rest
  end.

(** The store of the example with a second device object of the same
    vendor, model and serial. *)
Definition twin_world : World :=
  snd (new_device "Acme" "X1" "123" (Some "") example_world).

(** The client that [example_script] builds, with its two reports
    queued. *)
Definition built_client : t :=
  mk "wss://example.test" "1.0" [0%nat]
     [example_payload;
      json.text "{'device': {'ipcdver': '1.0', 'vendor': 'Acme', 'model': 'X1', 'sn': '123'}, 'report': 'ok'}"].

(** A schedule of the session of [registered_world] with two calls and
    two received frames, and the state it leads to. *)
Definition busy_schedule : list event :=
  [ConnectLoop;
   Caller (Report 1 (PInt 1));
   ConnectLoop;
   ConnectLoop;
   Reader set_command;
   Caller (OnValueChange 0 (PInt 2));
   Writer;
   Reader addressed_command;
   RunTask 0].

Definition busy_session : Session :=
  default (connect 0 registered_world)
          (run json.loads example_from_payload example_apply busy_schedule
               (connect 0 registered_world)).

(** ** Decoding what was encoded *)

(** A text after which a number ends. *)
Definition delimited (rest : string) : bool :=
  match rest with
  | EmptyString => true
  | String c _ => Ascii.eqb c ","%char || Ascii.eqb c "]"%char || Ascii.eqb c "}"%char
  end.

Fixpoint distinct (ks : list string) : bool :=
  match ks with
  | [] => true
  | k :: rest => negb (existsb (String.eqb k) rest) && distinct rest
  end.

(** No object without an encoding, and no key twice in a [dict]. *)
Fixpoint canonical (v : pyval) : bool :=
  match v with
  | PList l =>
      (fix all (l : list pyval) : bool :=
         match l with
         | [] => true
         | x :: r => canonical x && all r
         end) l
  | PDict kv =>
      distinct (map fst kv)
      && (fix all (kv : list (string * pyval)) : bool :=
            match kv with
            | [] => true
            | (_, x) :: r => canonical x && all r
            end) kv
  | PObject _ => false
  | _ => true
  end.

(** The depth of recursion that decoding a value takes. *)
Fixpoint need (v : pyval) : nat :=
  match v with
  | PList l =>
      S ((fix go (l : list pyval) : nat :=
            match l with
            | [] => 0
            | x :: r => S (Nat.max (need x) (go r))
            end) l)
  | PDict kv =>
      S ((fix go (kv : list (string * pyval)) : nat :=
            match kv with
            | [] => 0
            | (_, x) :: r => S (Nat.max (need x) (go r))
            end) kv)
  | _ => 1
  end.

(** What decoding has to do with a value: it is encoded by a text that
    starts with no blank and no closing bracket, and the text is read back
    as the value in front of whatever ends a value. *)
Definition reads_back (v : pyval) (text : string) : Prop :=
  (exists c t, text = String c t /\ json.is_ws c = false
               /\ Ascii.eqb c "]"%char = false /\ Ascii.eqb c "}"%char = false)
  /\ need v <= String.length text
  /\ forall rest fuel,
      delimited rest = true -> need v <= fuel ->
      json.scan_once fuel (text +:+ rest) = Some (v, rest).

Fixpoint encode_items (l : list pyval) : exn + list string :=
  match l with
  | [] => inr []
  | x :: r =>
      match json.dumps x with
      | inl e => inl e
      | inr sx =>
          match encode_items r with
          | inl e => inl e
          | inr sr => inr (sx :: sr)
          end
      end
  end.

Fixpoint encode_pairs (kv : list (string * pyval)) : exn + list string :=
  match kv with
  | [] => inr []
  | (k, x) :: r =>
      match json.dumps x with
      | inl e => inl e
      | inr sx =>
          match encode_pairs r with
          | inl e => inl e
          | inr sr => inr ((json.encode_str k +:+ ": " +:+ sx) :: sr)
          end
      end
  end.

Fixpoint need_items (l : list pyval) : nat :=
  match l with
  | [] => 0
  | x :: r => S (Nat.max (need x) (need_items r))
  end.

Fixpoint need_pairs (kv : list (string * pyval)) : nat :=
  match kv with
  | [] => 0
  | (_, x) :: r => S (Nat.max (need x) (need_pairs r))
  end.

(** An entry of a [dict] and its text. *)
Definition entry_reads (p : string * pyval) (text : string) : Prop :=
  exists sx, text = json.encode_str (fst p) +:+ ": " +:+ sx /\ reads_back (snd p) sx.

Definition message_of (op : call) : pyval :=
  match op with
  | OnValueChange _ message | Report _ message | Send _ message => message
  end.

(** Whether a value holds, at any depth, an object without an encoding. *)
Fixpoint encodable (v : pyval) : bool :=
  match v with
  | PList l =>
      (fix all (l : list pyval) : bool :=
         match l with
         | [] => true
         | x :: r => encodable x && all r
         end) l
  | PDict kv =>
      (fix all (kv : list (string * pyval)) : bool :=
         match kv with
         | [] => true
         | (_, x) :: r => encodable x && all r
         end) kv
  | PObject _ => false
  | _ => true
  end.

(** Whether a text is made of the characters from the space to the tilde. *)
Fixpoint printable (s : string) : bool :=
  match s with
  | EmptyString => true
  | String c r =>
      (32 <=? nat_of_ascii c)%nat && (nat_of_ascii c <=? 126)%nat && printable r
  end.

(** ** The limits of the interpreter *)

(** CPython does not encode every value that has an encoding:
    [json.dumps] raises [RecursionError] on containers nested deeper than
    the recursion limit (1000 frames unless configured) leaves room for at
    the call, and [ValueError] on an integer of more decimal digits than
    [sys.get_int_max_str_digits()] allows (4300 unless configured, and
    never fewer than 640); [json.loads] has the same two limits.
    [json.dumps] and [json.loads] above model neither, so what they say of
    a value is said of the library only for values that stay clear of
    both limits.  The library's other failure, [ValueError] on a container
    that holds itself, has no counterpart here: a [pyval] is a tree. *)

(** Whether a value nests at most [depth] containers and holds no integer
    of more than [digits] digits (the sign is not counted). *)
Fixpoint fits (depth digits : nat) (v : pyval) : bool :=
  match v with
  | PInt z => (Z.abs z <? 10 ^ Z.of_nat digits)%Z
  | PList l =>
      match depth with
      | O => false
      | S depth' =>
          (fix all (l : list pyval) : bool :=
             match l with
             | [] => true
             | x :: r => fits depth' digits x && all r
             end) l
      end
  | PDict kv =>
      match depth with
      | O => false
      | S depth' =>
          (fix all (kv : list (string * pyval)) : bool :=
             match kv with
             | [] => true
             | (_, x) :: r => fits depth' digits x && all r
             end) kv
      end
  | _ => true
  end.

(** The values taken as clear of the limits: at most a hundred containers
    one inside the other, which an interpreter encodes unless the call is
    itself made at the brink of its recursion limit, and integers of at
    most 640 digits, which it converts under every setting. *)
Definition within_limits (v : pyval) : bool := fits 100 640 v.

(** ** Device *)

(** C5 (the code departs from it): a device built without a protocol
    version carries the client's "1.0" and reports it as [ipcdver] next to
    vendor, model and serial; a device built with the version "2.0" has no
    version attribute at all, and [to_obj] raises [AttributeError] on it. *)
Theorem C5_device_version_default_only :
  (forall V M S,
      Device.ipcd_version (Device.__init__ V M S None) = Some "1.0"
      /\ Device.to_obj (Device.__init__ V M S None) = inr (spec.identity "1.0" V M S))
  /\ Device.ipcd_version (Device.__init__ "Acme" "X1" "123" (Some "2.0")) = None
  /\ Device.to_obj (Device.__init__ "Acme" "X1" "123" (Some "2.0"))
     = inl (AttributeError "'Device' object has no attribute 'ipcd_version'").
Proof.
  split; [intros V M S; split; reflexivity | split; reflexivity].
Qed.

(** Any version that is supplied and not empty is dropped the same way. *)
Lemma Device_init_supplied (V M S ver : string) :
  ver <> "" ->
  Device.ipcd_version (Device.__init__ V M S (Some ver)) = None.
Proof.
  intros Hne. unfold Device.__init__; simpl.
  destruct ver as [|a r]; [congruence | reflexivity].
Qed.

(** ** Construction of a client *)

Lemma validate_hostname_set (hostname : string) (w : World) :
  hostname <> "" -> _validate_hostname hostname w = (inr tt, w).
Proof.
  intros Hne. unfold _validate_hostname.
  destruct (String.eqb_spec hostname ""); [contradiction | reflexivity].
Qed.

Lemma fresh_client_unused (w : World) : clients w !! fresh (dom (clients w)) = None.
Proof. apply not_elem_of_dom. apply is_fresh. Qed.

(** C6: with the empty hostname the constructor raises [ValueError]
    ("hostname must be set") and leaves the store as it was: no object, no
    log record, nothing on the network.  With any other hostname it returns
    a new client that holds this hostname, the version "1.0", an empty
    registry and an empty queue, and the network is still untouched. *)
Theorem C6_hostname_checked_at_construction :
  (forall w, __init__ "" w = (inl (ValueError "hostname must be set"), w))
  /\ (forall host w,
        host <> "" ->
        exists self w' c,
          __init__ host w = (inr self, w')
          /\ clients w !! self = None
          /\ clients w' !! self = Some c
          /\ hostname c = host /\ ipcd_version c = "1.0"
          /\ devices c = [] /\ queue c = []
          /\ (forall other, other <> self -> clients w' !! other = clients w !! other)
          /\ devs w' = devs w /\ log w' = log w /\ wire w' = wire w).
Proof.
  split.
  - intros w. reflexivity.
  - intros h w Hne.
    exists (fresh (dom (clients w))).
    eexists. exists (mk h "1.0" [] []). unfold __init__, bind.
    rewrite (validate_hostname_set h w Hne).
    split; [reflexivity |]. simpl.
    split; [apply fresh_client_unused |].
    split; [apply lookup_insert_eq |].
    do 4 (split; [reflexivity |]).
    split; [| auto].
    intros other Hother. apply lookup_insert_ne. congruence.
Qed.

Lemma C6_hostname_checked_at_construction_witness :
  exists self w' c,
    __init__ "wss://example.test" empty_world = (inr self, w')
    /\ clients empty_world !! self = None
    /\ clients w' !! self = Some c
    /\ hostname c = "wss://example.test" /\ ipcd_version c = "1.0"
    /\ devices c = [] /\ queue c = []
    /\ (forall other, other <> self -> clients w' !! other = clients empty_world !! other)
    /\ devs w' = devs empty_world /\ log w' = log empty_world
    /\ wire w' = wire empty_world.
Proof.
  apply (proj2 C6_hostname_checked_at_construction "wss://example.test" empty_world).
  discriminate.
Defined.

(** ** Registration of a device *)

(** C9: [add_device] raises nothing; it stores the client's address in the
    device and appends the device's address to the registry, whatever the
    registry already holds (the same object, or another one with the same
    vendor, model and serial).  The registry grows by one at its end, its
    earlier entries keep their positions, every other device object is
    untouched, and the added one keeps its vendor, model and serial. *)
Theorem C9_add_device_appends :
  forall w self device c d,
    clients w !! self = Some c ->
    devs w !! device = Some d ->
    exists w' c' d',
      add_device self device w = (inr tt, w')
      /\ devs w' !! device = Some d'
      /\ Device.get_client d' = Some self
      /\ Device.vendor d' = Device.vendor d
      /\ Device.model d' = Device.model d
      /\ Device.sn d' = Device.sn d
      /\ Device.ipcd_version d' = Device.ipcd_version d
      /\ (forall other, other <> device -> devs w' !! other = devs w !! other)
      /\ clients w' !! self = Some c'
      /\ devices c' = devices c ++ [device]
      /\ length (devices c') = S (length (devices c))
      /\ (forall i r, devices c !! i = Some r -> devices c' !! i = Some r)
      /\ hostname c' = hostname c /\ ipcd_version c' = ipcd_version c
      /\ queue c' = queue c
      /\ (forall other, other <> self -> clients w' !! other = clients w !! other)
      /\ log w' = log w /\ wire w' = wire w.
Proof.
  intros w self device c d Hc Hd.
  eexists. exists (mk (hostname c) (ipcd_version c) (devices c ++ [device]) (queue c)).
  exists (Device._set_client d self).
  unfold add_device, bind, the_device, the_client, store_device, store_client.
  rewrite Hd. simpl. rewrite Hc.
  split; [reflexivity |]. simpl.
  split; [apply lookup_insert_eq |].
  do 5 (split; [reflexivity |]).
  split; [intros other Hne; apply lookup_insert_ne; congruence |].
  split; [apply lookup_insert_eq |].
  split; [reflexivity |].
  split; [rewrite length_app; simpl; lia |].
  split; [intros i r Hi; apply lookup_app_l_Some; exact Hi |].
  do 3 (split; [reflexivity |]).
  split; [intros other Hne; apply lookup_insert_ne; congruence |].
  split; reflexivity.
Qed.

Lemma C9_add_device_appends_witness :
  exists w' c' d',
    add_device 0 0 (snd (add_device 0 0 example_world)) = (inr tt, w')
    /\ devs w' !! 0%nat = Some d'
    /\ Device.get_client d' = Some 0%nat
    /\ Device.vendor d' = "Acme"
    /\ Device.model d' = "X1"
    /\ Device.sn d' = "123"
    /\ Device.ipcd_version d' = Some "1.0"
    /\ (forall other, other <> 0%nat ->
          devs w' !! other = devs (snd (add_device 0 0 example_world)) !! other)
    /\ clients w' !! 0%nat = Some c'
    /\ devices c' = [0%nat] ++ [0%nat]
    /\ length (devices c') = 2%nat
    /\ (forall i r, [0%nat] !! i = Some r -> devices c' !! i = Some r)
    /\ hostname c' = "wss://example.test" /\ ipcd_version c' = "1.0"
    /\ queue c' = []
    /\ (forall other, other <> 0%nat ->
          clients w' !! other = clients (snd (add_device 0 0 example_world)) !! other)
    /\ log w' = [] /\ wire w' = [].
Proof.
  apply (C9_add_device_appends (snd (add_device 0 0 example_world)) 0%nat 0%nat
           (mk "wss://example.test" "1.0" [0%nat] [])
           (Device.mk "Acme" "X1" "123" (Some "1.0") (Some 0%nat)));
    reflexivity.
Defined.

(** ** Events and reports put on the queue *)

Lemma on_value_change_unfold (w : World) (self : cref) (device : ref)
      (c : t) (d : Device.t) (message : pyval) :
  clients w !! self = Some c ->
  devs w !! device = Some d ->
  on_value_change self device message w =
    match json.dumps (spec.value_change (ipcd_version c) (Device.vendor d)
                                        (Device.model d) (Device.sn d) message) with
    | inl e => (inl e, w)
    | inr payload =>
        (inr tt,
         enqueued_world w self c payload ("putting " +:+ payload +:+ " on the queue"))
    end.
Proof.
  intros Hc Hd.
  unfold on_value_change, bind, the_client, the_device, lift.
  rewrite Hc, Hd. unfold spec.value_change, spec.report, spec.identity.
  match goal with |- context [json.dumps ?v] => destruct (json.dumps v) as [e|payload] end;
    [reflexivity |].
  unfold logger_info, put_nowait, bind, the_client, store_client; simpl.
  rewrite Hc. reflexivity.
Qed.

Lemma report_unfold (w : World) (self : cref) (device : ref)
      (c : t) (d : Device.t) (message : pyval) :
  clients w !! self = Some c ->
  devs w !! device = Some d ->
  report self device message w =
    match json.dumps (spec.report (ipcd_version c) (Device.vendor d)
                                  (Device.model d) (Device.sn d) message) with
    | inl e => (inl e, w)
    | inr payload =>
        (inr tt,
         enqueued_world w self c payload
                        ("report: putting " +:+ payload +:+ " on the queue"))
    end.
Proof.
  intros Hc Hd.
  unfold report, bind, the_client, the_device, lift.
  rewrite Hc, Hd. unfold spec.value_change, spec.report, spec.identity.
  match goal with |- context [json.dumps ?v] => destruct (json.dumps v) as [e|payload] end;
    [reflexivity |].
  unfold logger_info, put_nowait, bind, the_client, store_client; simpl.
  rewrite Hc. reflexivity.
Qed.


Lemma dumps_value_change_err (ver V M S : string) (changes : pyval) (e : exn) :
  json.dumps changes = inl e ->
  json.dumps (spec.value_change ver V M S changes) = inl e.
Proof. intros H. simpl. rewrite H. reflexivity. Qed.

Lemma dumps_report_ok (ver V M S : string) (message : pyval) (t : string) :
  json.dumps message = inr t ->
  exists payload,
    json.dumps (spec.report ver V M S message) = inr payload.
Proof. intros H. simpl. rewrite H. eexists. reflexivity. Qed.

Lemma dumps_report_err (ver V M S : string) (message : pyval) (e : exn) :
  json.dumps message = inl e ->
  json.dumps (spec.report ver V M S message) = inl e.
Proof. intros H. simpl. rewrite H. reflexivity. Qed.



(** C7 (as amended): on a client whose version is "1.0",
    [report(device, payload)] builds the envelope with the device's
    vendor, model and serial and [payload] under "report" and hands it to
    [json.dumps].  When [json.dumps] returns a text, that text goes to the
    end of the queue (after the record of it went to the logger); when
    [json.dumps] raises, as it does with [TypeError] on a payload that
    holds an object without an encoding, the exception reaches the caller
    and the store, queue and log included, is as it was.  In every state
    of a session the call is one step of the caller's thread that waits
    for nothing.  The envelope is one that stays clear of the limits of
    the interpreter, where [json.dumps] is the library's. *)
Theorem C7_report_envelope_enqueued :
  forall w self device c d payload,
    clients w !! self = Some c ->
    ipcd_version c = "1.0" ->
    devs w !! device = Some d ->
    within_limits (spec.report "1.0" (Device.vendor d) (Device.model d) (Device.sn d)
                               payload) = true ->
    (forall t,
        json.dumps payload = inr t ->
        exists text,
          json.dumps (spec.report "1.0" (Device.vendor d) (Device.model d)
                                  (Device.sn d) payload) = inr text
          /\ report self device payload w
             = (inr tt,
                enqueued_world w self c text
                               ("report: putting " +:+ text +:+ " on the queue")))
    /\ (forall e,
          json.dumps payload = inl e ->
          json.dumps (spec.report "1.0" (Device.vendor d) (Device.model d)
                                  (Device.sn d) payload) = inl e
          /\ report self device payload w = (inl e, w))
    /\ (forall (Command : Type) loads (from_payload : pyval -> exn + Command) apply s,
          step loads from_payload apply (Caller (Report device payload)) s
          = Some (with_world s (snd (report (IpcdClient.self s) device payload (world s))))).
Proof.
  intros w self device c d payload Hc Hver Hd _.
  rewrite (report_unfold w self device c d payload Hc Hd), Hver.
  split; [| split].
  - intros t Ht.
    destruct (dumps_report_ok "1.0" (Device.vendor d) (Device.model d) (Device.sn d)
                payload t Ht) as [text Htext].
    exists text. rewrite Htext. split; reflexivity.
  - intros e He.
    rewrite (dumps_report_err "1.0" (Device.vendor d) (Device.model d) (Device.sn d)
               payload e He).
    split; reflexivity.
  - intros Command loads from_payload apply s.
    unfold step. destruct (ph s); reflexivity.
Qed.

Lemma C7_report_envelope_enqueued_witness :
  (forall t,
      json.dumps (PDict [("temp", PInt 72)]) = inr t ->
      exists text,
        json.dumps (spec.report "1.0" "Acme" "X1" "123" (PDict [("temp", PInt 72)]))
        = inr text
        /\ report 0 0 (PDict [("temp", PInt 72)]) example_world
           = (inr tt,
              enqueued_world example_world 0 (mk "wss://example.test" "1.0" [] []) text
                             ("report: putting " +:+ text +:+ " on the queue")))
  /\ (forall e,
        json.dumps (PDict [("temp", PInt 72)]) = inl e ->
        json.dumps (spec.report "1.0" "Acme" "X1" "123" (PDict [("temp", PInt 72)]))
        = inl e
        /\ report 0 0 (PDict [("temp", PInt 72)]) example_world = (inl e, example_world))
  /\ (forall (Command : Type) loads (from_payload : pyval -> exn + Command) apply s,
        step loads from_payload apply (Caller (Report 0 (PDict [("temp", PInt 72)]))) s
        = Some (with_world s
                  (snd (report (IpcdClient.self s) 0 (PDict [("temp", PInt 72)])
                               (world s))))).
Proof.
  apply (C7_report_envelope_enqueued example_world 0%nat 0%nat
           (mk "wss://example.test" "1.0" [] [])
           (Device.mk "Acme" "X1" "123" (Some "1.0") None)
           (PDict [("temp", PInt 72)]));
    vm_compute; reflexivity.
Defined.

(** C7 as stated fails: a report whose payload is a [set] raises
    [TypeError] in the caller and nothing is put on the queue. *)
Lemma C7_report_raises_on_unencodable_payload :
  report 0 0 (PObject "set") example_world
  = (inl (TypeError "Object of type set is not JSON serializable"), example_world)
  /\ queue <$> clients example_world !! 0%nat = Some [].
Proof. split; vm_compute; reflexivity. Qed.

Lemma client_eta (c : t) : mk (hostname c) (ipcd_version c) (devices c) (queue c) = c.
Proof. destruct c; reflexivity. Qed.

Lemma perform_effect (w : World) (self : cref) (op : call) (c : t) :
  clients w !! self = Some c ->
  exists r w',
    perform self op w = (r, w')
    /\ devs w' = devs w /\ wire w' = wire w
    /\ clients w' !! self
       = Some (mk (hostname c) (ipcd_version c) (devices c)
                  (queue c ++ enqueued_by w self op)).
Proof.
  intros Hc. unfold enqueued_by. rewrite Hc.
  destruct (devs w !! device_of op) as [d|] eqn:Hd.
  - destruct op as [device m|device m|device m]; cbn [device_of envelope_of perform] in *;
      unfold send;
      rewrite ?(on_value_change_unfold w self device c d m Hc Hd),
              ?(report_unfold w self device c d m Hc Hd);
      match goal with |- context [json.dumps ?v] => destruct (json.dumps v) as [e|p] end;
      do 2 eexists; (split; [reflexivity|]); unfold enqueued_world; cbn [devs wire clients];
      rewrite ?app_nil_r, ?client_eta, ?lookup_insert_eq; auto.
  - exists (inl (AttributeError "not a Device")), w.
    rewrite app_nil_r, client_eta.
    split; [| auto].
    destruct op as [device m|device m|device m]; cbn [device_of perform] in *;
      unfold send, on_value_change, report, bind, the_client, the_device;
      rewrite Hc, Hd; reflexivity.
Qed.

Section facts.
Context {Command : Type}.
Variable loads : string -> exn + pyval.
Variable from_payload : pyval -> exn + Command.
Variable apply : Command -> Device.t -> exn + unit.

Abbreviation step := (step loads from_payload apply).
Abbreviation run := (run loads from_payload apply).

Lemma run_app (evs evs' : list event) (s : Session) :
  run (evs ++ evs') s =
    match run evs s with
    | Some s' => run evs' s'
    | None => None
    end.
Proof.
  revert s. induction evs as [|ev evs IH]; intros s; simpl; [reflexivity |].
  destruct (step ev s); [apply IH | reflexivity].
Qed.

Lemma enqueued_app (w : World) (self : cref) (evs evs' : list event) :
  enqueued w self (evs ++ evs') = enqueued w self evs ++ enqueued w self evs'.
Proof.
  induction evs as [|ev evs IH]; simpl; [reflexivity |].
  destruct ev; rewrite ?IH, ?app_assoc; reflexivity.
Qed.

Lemma enqueued_by_stable (w w' : World) (self : cref) (op : call) (c c' : t) :
  devs w' = devs w ->
  clients w !! self = Some c ->
  clients w' !! self = Some c' ->
  ipcd_version c' = ipcd_version c ->
  enqueued_by w' self op = enqueued_by w self op.
Proof.
  intros Hd Hc Hc' Hv. unfold enqueued_by. rewrite Hd, Hc, Hc', Hv. reflexivity.
Qed.

(** What one step in the active phase does to the socket and the queue. *)
Lemma step_active (ev : event) (s s' : Session) (c : t) :
  ph s = Active ->
  clients (world s) !! self s = Some c ->
  step ev s = Some s' ->
  exists out c',
    ph s' = Active /\ self s' = self s /\ writer_task s' = writer_task s
    /\ devs (world s') = devs (world s)
    /\ clients (world s') !! self s = Some c'
    /\ hostname c' = hostname c /\ ipcd_version c' = ipcd_version c
    /\ devices c' = devices c
    /\ frames (world s') = frames (world s) ++ out
    /\ out ++ queue c' = queue c ++ enqueued (world s) (self s) [ev].
Proof.
  intros Hph Hc Hstep. unfold step in Hstep. rewrite Hph in Hstep.
  destruct ev as [|msg| |k|op].
  - discriminate.
  - destruct (reader_task s); [| discriminate].
    destruct (reader loads (self s) msg (world s)) as [[e|t] w1] eqn:Hr;
      unfold reader, bind, the_client in Hr; rewrite Hc in Hr;
      (destruct (devices c !! 0%nat) as [device|];
       [unfold the_device, lift, ret in Hr;
        destruct (devs (world s) !! device);
        [destruct (loads msg) |] |]);
      simpl in Hr; inversion Hr; subst; inversion Hstep; subst; simpl;
      exists [], c; rewrite !app_nil_r; auto 10.
  - destruct (writer_task s) eqn:Hw; [| discriminate].
    unfold writer, queue_get, bind, the_client in Hstep. rewrite Hc in Hstep.
    destruct (queue c) as [|msg rest] eqn:Hq; simpl in Hstep; [discriminate |].
    inversion Hstep; subst; simpl.
    exists [msg], (mk (hostname c) (ipcd_version c) (devices c) rest).
    rewrite lookup_insert_eq, app_nil_r. unfold frames; simpl. rewrite omap_app.
    auto 10.
  - destruct (pending s !! k); [| discriminate].
    inversion Hstep; subst; simpl.
    exists [], c; rewrite !app_nil_r; auto 10.
  - inversion Hstep; subst; simpl.
    destruct (perform_effect (world s) (self s) op c Hc) as (r & w' & Hp & Hd & Hwire & Hc').
    rewrite Hp; simpl.
    exists [], (mk (hostname c) (ipcd_version c) (devices c)
                   (queue c ++ enqueued_by (world s) (self s) op)).
    rewrite !app_nil_r. unfold frames. rewrite Hwire. auto 10.
Qed.

Lemma enqueued_stable (w w' : World) (self : cref) (evs : list event) (c c' : t) :
  devs w' = devs w ->
  clients w !! self = Some c ->
  clients w' !! self = Some c' ->
  ipcd_version c' = ipcd_version c ->
  enqueued w' self evs = enqueued w self evs.
Proof.
  intros Hd Hc Hc' Hv. induction evs as [|ev evs IH]; simpl; [reflexivity |].
  destruct ev; rewrite ?IH; try reflexivity.
  rewrite (enqueued_by_stable w w' self op c c' Hd Hc Hc' Hv). reflexivity.
Qed.

Lemma announce_effect (w : World) (self : cref) (device : ref) (c : t) (p : string)
      (w0 : World) :
  clients w !! self = Some c ->
  devs w = devs w0 ->
  announced w0 (ipcd_version c) device p ->
  announce self device w
  = (inr tt, mkWorld (devs w) (clients w) (log w) (wire w ++ [Frame p])).
Proof.
  intros Hc Hd (d & Hdev & Hp). rewrite <- Hd in Hdev.
  unfold announce, bind, the_client, the_device, lift.
  rewrite Hc, Hdev.
  unfold spec.registration, spec.identity in Hp. rewrite Hp. reflexivity.
Qed.

Section handshake.
Variables (w : World) (self0 : cref) (c : t) (H : list string).
Hypothesis Hc : clients w !! self0 = Some c.
Hypothesis HH : Forall2 (announced w (ipcd_version c)) (devices c) H.

Lemma inv_connect : session_inv w self0 c H [] (connect self0 w).
Proof.
  unfold connect. rewrite Hc. unfold session_inv; simpl.
  do 3 (split; [reflexivity |]).
  exists c, []. rewrite Hc, app_nil_r.
  do 5 (split; [reflexivity |]).
  split; [lia |]. split; [reflexivity |].
  unfold frames; simpl. rewrite omap_app, take_0, !app_nil_r. reflexivity.
Qed.

Lemma inv_step (evs : list event) (ev : event) (s s' : Session) :
  session_inv w self0 c H evs s ->
  step ev s = Some s' ->
  session_inv w self0 c H (evs ++ [ev]) s'.
Proof.
  intros (Hself & Hwr & Hdevs & c' & written & Hc' & Hh & Hv & Hds & Hq & Hph) Hstep.
  unfold session_inv. rewrite enqueued_app.
  destruct (ph s) as [i| |e] eqn:Ephase; [| | contradiction].
  - destruct Hph as (Hi & Hwritten & Hfr). subst written.
    unfold step in Hstep. rewrite Ephase in Hstep.
    destruct ev as [|msg| |k|op]; try discriminate.
    + unfold connect_loop, bind, the_client in Hstep.
      rewrite Hself, Hc', Hds in Hstep.
      destruct (devices c !! i) as [device|] eqn:Hlook.
      * destruct (Forall2_lookup_l _ _ _ _ _ HH Hlook) as (p & HpH & Hann).
        rewrite <- Hv in Hann.
        rewrite (announce_effect (world s) self0 device c' p w Hc' Hdevs Hann) in Hstep.
        simpl in Hstep. inversion Hstep; subst s'; clear Hstep.
        unfold session_inv; simpl.
        do 3 (split; [assumption |]).
        exists c', []. rewrite app_nil_r.
        do 4 (split; [assumption |]).
        split; [exact Hq |].
        split; [apply lookup_lt_Some in Hlook; lia |].
        split; [reflexivity |].
        unfold frames in *; simpl. rewrite omap_app, Hfr. simpl.
        rewrite (take_S_r _ _ _ HpH), app_assoc. reflexivity.
      * simpl in Hstep. inversion Hstep; subst s'; clear Hstep.
        unfold session_inv; simpl.
        do 3 (split; [assumption |]).
        exists c', []. rewrite !app_nil_r.
        do 4 (split; [assumption |]).
        split; [exact Hq |].
        rewrite Hfr. f_equal. apply take_ge.
        apply lookup_ge_None in Hlook.
        rewrite <- (Forall2_length _ _ _ HH). exact Hlook.
    + inversion Hstep; subst s'; clear Hstep.
      destruct (perform_effect (world s) (self s) op c') as (r & w' & Hp & Hd & Hwire & Hcl);
        [rewrite Hself; exact Hc' |].
      rewrite Hp. unfold session_inv; simpl. rewrite Ephase.
      split; [assumption |]. split; [assumption |].
      split; [congruence |].
      eexists. exists []. rewrite <- Hself.
      split; [exact Hcl |]. simpl.
      do 3 (split; [assumption |]).
      split.
      { rewrite Hself.
        rewrite (enqueued_by_stable w (world s) self0 op c c' Hdevs Hc Hc' Hv).
        simpl in Hq. rewrite Hq, app_nil_r. rewrite app_assoc. reflexivity. }
      split; [assumption |]. split; [reflexivity |].
      unfold frames in *. rewrite Hwire. exact Hfr.
  - assert (Hcs : clients (world s) !! self s = Some c') by (rewrite Hself; exact Hc').
    destruct (step_active ev s s' c' Ephase Hcs Hstep)
      as (out & c'' & Hph' & Hself' & Hwr' & Hd' & Hc'' & Hh' & Hv' & Hds' & Hfr' & Hq').
    unfold session_inv. rewrite Hph'.
    split; [congruence |]. split; [congruence |]. split; [congruence |].
    exists c'', (written ++ out).
    rewrite <- Hself.
    split; [exact Hc'' |].
    do 3 (split; [congruence |]).
    split.
    { rewrite <- app_assoc, Hq', app_assoc, Hq.
      rewrite Hself.
      rewrite (enqueued_stable w (world s) self0 [ev] c c' Hdevs Hc Hc' Hv).
      rewrite app_assoc. reflexivity. }
    rewrite Hfr', Hph. rewrite <- !app_assoc. reflexivity.
Qed.

Lemma inv_run (evs : list event) (s : Session) :
  run evs (connect self0 w) = Some s ->
  session_inv w self0 c H evs s.
Proof.
  revert s. induction evs as [|ev evs IH] using rev_ind; intros s Hrun.
  - simpl in Hrun. inversion Hrun; subst. apply inv_connect.
  - rewrite run_app in Hrun.
    destruct (run evs (connect self0 w)) as [s1|] eqn:Hr1; [| discriminate].
    simpl in Hrun.
    destruct (step ev s1) as [s2|] eqn:Hs; [| discriminate].
    inversion Hrun; subst s2.
    apply (inv_step evs ev s1 s (IH s1 eq_refl) Hs).
Qed.

Lemma announced_length : length H = length (devices c).
Proof. symmetry. apply (Forall2_length _ _ _ HH). Qed.

(** [connect_loop] is never stuck while it registers: it sends the
    next announcement, or finds the registry exhausted. *)
Lemma step_connect_loop (evs : list event) (s : Session) (i : nat) :
  session_inv w self0 c H evs s ->
  ph s = Registering i ->
  step ConnectLoop s
  = Some match H !! i with
         | Some p =>
             mkSession (mkWorld (devs (world s)) (clients (world s)) (log (world s))
                                (wire (world s) ++ [Frame p]))
                       (self s) (Registering (S i)) (reader_task s) (writer_task s)
                       (pending s) (finished s)
         | None => with_ph s Active
         end.
Proof.
  intros (Hself & Hwr & Hdevs & c' & written & Hc' & Hh & Hv & Hds & Hq & Hph) Ephase.
  unfold step. rewrite Ephase.
  unfold connect_loop, bind, the_client. rewrite Hself, Hc', Hds.
  destruct (devices c !! i) as [device|] eqn:Hlook.
  - destruct (Forall2_lookup_l _ _ _ _ _ HH Hlook) as (p & HpH & Hann).
    rewrite <- Hv in Hann.
    rewrite (announce_effect (world s) self0 device c' p w Hc' Hdevs Hann).
    rewrite HpH, <- Hself. reflexivity.
  - apply lookup_ge_None in Hlook. rewrite <- announced_length in Hlook.
    apply lookup_ge_None in Hlook. rewrite Hlook.
    destruct s; reflexivity.
Qed.

Lemma handshake_completes (k : nat) :
  forall (i : nat) (evs : list event) (s : Session),
    session_inv w self0 c H evs s ->
    ph s = Registering i ->
    i + k = length (devices c) ->
    exists s',
      run (repeat ConnectLoop (S k)) s = Some s'
      /\ ph s' = Active
      /\ frames (world s') = frames w ++ H
      /\ world s' =
           mkWorld (devs (world s)) (clients (world s)) (log (world s))
                   (wire (world s) ++ map Frame (drop i H)).
Proof.
  induction k as [|k IH]; intros i evs s Hinv Ephase Hik.
  - assert (Hnone : H !! i = None)
      by (apply lookup_ge_None; rewrite announced_length; lia).
    exists (with_ph s Active). cbn [repeat IpcdClient.run].
    rewrite (step_connect_loop evs s i Hinv Ephase), Hnone.
    split; [reflexivity |]. split; [reflexivity |].
    destruct Hinv as (_ & _ & _ & c' & written & _ & _ & _ & _ & _ & Hph).
    rewrite Ephase in Hph. destruct Hph as (_ & _ & Hfr). simpl.
    rewrite Hfr, take_ge by (rewrite announced_length; lia).
    split; [reflexivity |].
    rewrite drop_ge by (rewrite announced_length; lia).
    simpl. rewrite app_nil_r. destruct (world s); reflexivity.
  - assert (Hsome : is_Some (H !! i))
      by (apply lookup_lt_is_Some; rewrite announced_length; lia).
    destruct Hsome as [p Hp].
    pose proof (step_connect_loop evs s i Hinv Ephase) as Hstep.
    rewrite Hp in Hstep.
    pose proof (inv_step evs ConnectLoop s _ Hinv Hstep) as Hinv'.
    destruct (IH (S i) _ _ Hinv' eq_refl ltac:(lia)) as (s' & Hrun & Hact & Hfr & Hw).
    exists s'. change (repeat ConnectLoop (S (S k)))
      with (ConnectLoop :: repeat ConnectLoop (S k)).
    cbn [IpcdClient.run]. rewrite Hstep.
    split; [exact Hrun |]. split; [exact Hact |]. split; [exact Hfr |].
    rewrite Hw. simpl. rewrite (drop_S _ _ _ Hp). simpl.
    rewrite <- app_assoc. reflexivity.
Qed.
End handshake.

Lemma announcements_exist (w : World) (ver : string) (ds : list ref) :
  Forall (fun r => is_Some (devs w !! r)) ds ->
  exists H, Forall2 (announced w ver) ds H.
Proof.
  induction 1 as [|r ds [d Hd] _ [H IH]].
  - exists []. constructor.
  - assert (exists p, json.dumps (spec.registration ver (Device.vendor d) (Device.model d)
                                                (Device.sn d)) = inr p) as [p Hp]
      by (simpl; eexists; reflexivity).
    exists (p :: H). constructor; [exists d; split; assumption | exact IH].
Qed.

(** The writer, left to itself, empties the queue onto the socket. *)
Lemma writer_drains (q : list string) :
  forall (s : Session) (c : t),
    ph s = Active -> writer_task s = Running ->
    clients (world s) !! self s = Some c ->
    queue c = q ->
    exists s',
      run (repeat Writer (length q)) s = Some s'
      /\ frames (world s') = frames (world s) ++ q
      /\ queue_of s' = [].
Proof.
  induction q as [|msg q IH]; intros s c Hph Hw Hc Hq.
  - exists s. simpl. rewrite app_nil_r. unfold queue_of. rewrite Hc. auto.
  - simpl. unfold step. rewrite Hph, Hw.
    unfold writer, queue_get, bind, the_client. rewrite Hc, Hq. simpl.
    match goal with |- context [IpcdClient.run _ _ _ _ ?s1] => set (s1' := s1) end.
    assert (Hph1 : ph s1' = Active) by exact Hph.
    assert (Hw1 : writer_task s1' = Running) by exact Hw.
    assert (Hc1 : clients (world s1') !! self s1'
                  = Some (mk (hostname c) (ipcd_version c) (devices c) q))
      by (subst s1'; simpl; apply lookup_insert_eq).
    destruct (IH s1' _ Hph1 Hw1 Hc1 eq_refl) as (s' & Hrun & Hfr & Hempty).
    exists s'. split; [exact Hrun |]. split; [| exact Hempty].
    rewrite Hfr. subst s1'. unfold frames; simpl. rewrite omap_app. simpl.
    rewrite <- app_assoc. reflexivity.
Qed.

(** Only the writer takes from the queue, and it takes the head. *)
Lemma step_queue (ev : event) (s s' : Session) (c : t) :
  clients (world s) !! self s = Some c ->
  step ev s = Some s' ->
  match ev with
  | Writer =>
      exists msg, queue c = msg :: queue_of s'
                  /\ frames (world s') = frames (world s) ++ [msg]
  | _ => exists l, queue_of s' = queue c ++ l
  end.
Proof.
  intros Hc Hstep. unfold step in Hstep.
  destruct ev as [|msg| |k|op].
  - destruct (ph s) as [i| |]; try discriminate.
    exists []. rewrite app_nil_r.
    unfold connect_loop, bind, the_client in Hstep. rewrite Hc in Hstep.
    destruct (devices c !! i) as [device|].
    + unfold announce, bind, the_client, the_device, lift in Hstep. rewrite Hc in Hstep.
      destruct (devs (world s) !! device);
        [match type of Hstep with context [json.dumps ?v] =>
           destruct (json.dumps v) end |];
        simpl in Hstep; inversion Hstep; subst; unfold queue_of; simpl;
        rewrite Hc; reflexivity.
    + simpl in Hstep. inversion Hstep; subst. unfold queue_of; simpl.
      rewrite Hc; reflexivity.
  - destruct (ph s); try discriminate. destruct (reader_task s); [| discriminate].
    exists []. rewrite app_nil_r.
    unfold reader, bind, the_client in Hstep. rewrite Hc in Hstep.
    destruct (devices c !! 0%nat) as [device|];
      [unfold the_device, lift, ret in Hstep;
       destruct (devs (world s) !! device); [destruct (loads msg) |] |];
      simpl in Hstep; inversion Hstep; subst; unfold queue_of; simpl;
      rewrite Hc; reflexivity.
  - destruct (ph s); try discriminate. destruct (writer_task s); [| discriminate].
    unfold writer, queue_get, bind, the_client in Hstep. rewrite Hc in Hstep.
    destruct (queue c) as [|msg rest]; simpl in Hstep; [discriminate |].
    inversion Hstep; subst. exists msg. unfold queue_of, frames; simpl.
    rewrite lookup_insert_eq, omap_app. split; reflexivity.
  - destruct (ph s); try discriminate. destruct (pending s !! k); [| discriminate].
    inversion Hstep; subst. exists []. unfold queue_of; simpl.
    rewrite Hc, app_nil_r; reflexivity.
  - assert (Hs' : s' = with_world s (snd (perform (self s) op (world s))))
      by (destruct (ph s); inversion Hstep; reflexivity).
    destruct (perform_effect (world s) (self s) op c Hc) as (r & w' & Hp & _ & _ & Hc').
    rewrite Hp in Hs'. subst s'. eexists. unfold queue_of; simpl.
    rewrite Hc'. reflexivity.
Qed.

(** C2: [connect] on a client whose registry holds N device objects sends,
    before anything else, one registration envelope
    [{"device": identity, "events": ["onBoot", "onConnect"]}] per registry
    entry, in registry order.  There is a list [H] of N texts, the i-th
    being the serialized envelope of the i-th registered device, empty when
    N = 0; N + 1 turns of [connect_loop] take the session to its active
    phase with exactly [H] on the socket and the queue untouched; and in
    every reachable state the socket holds the first i texts of [H] while
    the loop stands at index i, where neither the reader nor the writer
    nor a dispatch task can run, and [H] followed by later traffic once the
    session is active. *)
Theorem C2_registration_handshake :
  forall (w : World) (self0 : cref) (c : t),
    clients w !! self0 = Some c ->
    Forall (fun r => is_Some (devs w !! r)) (devices c) ->
    exists H : list string,
      Forall2 (announced w (ipcd_version c)) (devices c) H
      /\ length H = length (devices c)
      /\ (devices c = [] -> H = [])
      /\ (exists s,
            run (repeat ConnectLoop (S (length (devices c)))) (connect self0 w) = Some s
            /\ ph s = Active
            /\ frames (world s) = frames w ++ H
            /\ queue_of s = queue c)
      /\ (forall evs s,
            run evs (connect self0 w) = Some s ->
            match ph s with
            | Registering i =>
                i <= length (devices c)
                /\ frames (world s) = frames w ++ take i H
                /\ (forall msg k, step (Reader msg) s = None
                                  /\ step Writer s = None
                                  /\ step (RunTask k) s = None)
            | Active => exists rest, frames (world s) = frames w ++ H ++ rest
            | Crashed _ => False
            end).
Proof.
  intros w self0 c Hc Hlive.
  destruct (announcements_exist w (ipcd_version c) (devices c) Hlive) as [H HH].
  exists H. split; [exact HH |].
  split; [apply (announced_length w c H HH) |].
  split; [intros Hnil; rewrite Hnil in HH; inversion HH; reflexivity |].
  split.
  - destruct (handshake_completes w self0 c H Hc HH (length (devices c)) 0 []
                (connect self0 w) (inv_connect w self0 c H Hc) )
      as (s & Hrun & Hact & Hfr & Hw); [unfold connect; rewrite Hc; reflexivity | lia |].
    exists s. do 3 (split; [assumption |]).
    destruct (inv_run w self0 c H Hc HH _ s Hrun) as (Hself & _).
    unfold queue_of. rewrite Hself, Hw. unfold connect. rewrite Hc. simpl. rewrite Hc.
    reflexivity.
  - intros evs s Hrun.
    destruct (inv_run w self0 c H Hc HH evs s Hrun)
      as (_ & _ & _ & c' & written & _ & _ & _ & _ & _ & Hph).
    destruct (ph s) as [i| |e] eqn:Ephase; [| | exact Hph].
    + destruct Hph as (Hi & _ & Hfr). split; [exact Hi |]. split; [exact Hfr |].
      intros msg k. unfold step. rewrite Ephase. auto.
    + exists written. exact Hph.
Qed.

(** C3: in every state a session can reach, what the writer has put on the
    socket after the announcements, followed by what is still queued, is
    the queue as [connect] found it followed by the texts that the calls
    to [on_value_change], [send] and [report] enqueued, in the order of
    the calls.  Once the session is active the writer alone empties the
    queue onto the socket in that order; a turn of the writer removes the
    head of the queue and sends it, and no other step removes anything
    from the queue. *)
Theorem C3_outbound_fifo :
  forall (w : World) (self0 : cref) (c : t),
    clients w !! self0 = Some c ->
    Forall (fun r => is_Some (devs w !! r)) (devices c) ->
    exists H : list string,
      Forall2 (announced w (ipcd_version c)) (devices c) H
      /\ (forall evs s,
            run evs (connect self0 w) = Some s ->
            (exists written,
                frames (world s)
                = frames w
                  ++ match ph s with Registering i => take i H | _ => H end
                  ++ written
                /\ written ++ queue_of s = queue c ++ enqueued w self0 evs)
            /\ (ph s = Active ->
                exists s',
                  run (repeat Writer (length (queue_of s))) s = Some s'
                  /\ frames (world s') = frames (world s) ++ queue_of s
                  /\ queue_of s' = [])
            /\ (forall ev s',
                  step ev s = Some s' ->
                  match ev with
                  | Writer =>
                      exists msg, queue_of s = msg :: queue_of s'
                                  /\ frames (world s') = frames (world s) ++ [msg]
                  | _ => exists l, queue_of s' = queue_of s ++ l
                  end)).
Proof.
  intros w self0 c Hc Hlive.
  destruct (announcements_exist w (ipcd_version c) (devices c) Hlive) as [H HH].
  exists H. split; [exact HH |].
  intros evs s Hrun.
  destruct (inv_run w self0 c H Hc HH evs s Hrun)
    as (Hself & Hwr & _ & c' & written & Hc' & _ & _ & _ & Hq & Hph).
  assert (Hcs : clients (world s) !! self s = Some c') by (rewrite Hself; exact Hc').
  assert (Hqs : queue_of s = queue c') by (unfold queue_of; rewrite Hcs; reflexivity).
  split; [| split].
  - exists written. rewrite Hqs. split; [| exact Hq].
    destruct (ph s) as [i| |e]; [| exact Hph | contradiction].
    destruct Hph as (_ & -> & Hfr). rewrite app_nil_r. exact Hfr.
  - intros Hact. rewrite Hqs.
    apply (writer_drains (queue c') s c' Hact Hwr Hcs eq_refl).
  - intros ev s' Hstep. rewrite Hqs.
    apply (step_queue ev s s' c' Hcs Hstep).
Qed.

Lemma reader_creates_task (s : Session) (c : t) (device : ref) (d : Device.t)
      (msg : string) (payload : pyval) :
  ph s = Active -> reader_task s = Running ->
  clients (world s) !! self s = Some c ->
  devices c !! 0%nat = Some device ->
  devs (world s) !! device = Some d ->
  loads msg = inr payload ->
  step (Reader msg) s
  = Some (mkSession (world s) (self s) Active Running (writer_task s)
                    (pending s ++ [mkTask device payload]) (finished s)).
Proof.
  intros Hph Hr Hc H0 Hd Hl.
  unfold step. rewrite Hph, Hr.
  unfold reader, bind, the_client, the_device, lift, ret.
  rewrite Hc, H0, Hd, Hl. reflexivity.
Qed.

(** The task created last runs as a step of its own and ends with what
    [on_message] returns or raises. *)
Lemma last_task_runs (w : World) (self0 : cref) (r wr : status) (l : list Task)
      (f : list (Task * (exn + unit))) (task : Task) (d : Device.t) :
  devs w !! target task = Some d ->
  step (RunTask (length l)) (mkSession w self0 Active r wr (l ++ [task]) f)
  = Some (mkSession w self0 Active r wr l
                    (f ++ [(task, on_message from_payload apply d (message task))])).
Proof.
  intros Hd. unfold step; simpl.
  rewrite lookup_app_r by lia. rewrite Nat.sub_diag. simpl.
  rewrite delete_middle, app_nil_r.
  unfold run_task. rewrite Hd. reflexivity.
Qed.

(** While the reader runs, a turn of it is enabled for every frame. *)
Lemma reader_ready (s : Session) (msg : string) :
  ph s = Active -> reader_task s = Running -> is_Some (step (Reader msg) s).
Proof.
  intros Hph Hr. unfold step. rewrite Hph, Hr.
  destruct (reader loads (self s) msg (world s)) as [[e|task] w1]; eauto.
Qed.

(** A task at the end of the pending ones is still pending after every
    turn of the loop but its own. *)
Lemma other_turns_leave_task_pending (s s' : Session) (l : list Task) (task : Task)
      (ev : event) :
  pending s = l ++ [task] ->
  step ev s = Some s' ->
  ev = RunTask (length l) \/ task ∈ pending s'.
Proof.
  intros Hp Hstep.
  assert (Hin : task ∈ pending s) by (rewrite Hp; set_solver).
  unfold step in Hstep.
  destruct ev as [|msg| |k|op].
  - right. destruct (ph s) as [i| |]; try discriminate.
    destruct (connect_loop (self s) i (world s)) as [[e|p] w'];
      inversion Hstep; exact Hin.
  - right. destruct (ph s); try discriminate.
    destruct (reader_task s); [| discriminate].
    destruct (reader loads (self s) msg (world s)) as [[e|t] w'];
      inversion Hstep; cbn [pending]; set_solver.
  - right. destruct (ph s); try discriminate.
    destruct (writer_task s); [| discriminate].
    destruct (writer (self s) (world s)) as [[e|[m|]] w'];
      inversion Hstep; exact Hin.
  - destruct (ph s); try discriminate.
    destruct (pending s !! k) as [t|] eqn:Hk; [| discriminate].
    inversion Hstep; cbn [pending].
    apply lookup_lt_Some in Hk. rewrite Hp, length_app in Hk. cbn [length] in Hk.
    destruct (decide (k = length l)) as [->|Hne]; [left; reflexivity | right].
    rewrite Hp, delete_take_drop, drop_app_le by lia. set_solver.
  - right.
    assert (Hs' : s' = with_world s (snd (perform (self s) op (world s))))
      by (destruct (ph s); inversion Hstep; reflexivity).
    subst s'. exact Hin.
Qed.

(** C8 (as amended): in an active session whose first registry entry is a
    device, a received frame that decodes to [payload] makes the reader
    create one task whose receiver is that first device and whose argument
    is [payload], whatever [payload] contains.  The reader does not run
    the task and does not wait for it: the store and the finished tasks
    are as before and the reader is ready for any next frame at once.  The
    command runs later, in the one turn of the loop that is the task's
    own: every other turn leaves the task pending, and its own turn takes
    it from pending to finished, with what [on_message] returns or raises,
    while the store, the reader and the writer stay as they are. *)
Theorem C8_dispatch_to_first_device :
  forall (s : Session) (c : t) (device : ref) (d : Device.t)
         (msg : string) (payload : pyval),
    ph s = Active -> reader_task s = Running ->
    clients (world s) !! self s = Some c ->
    devices c !! 0%nat = Some device ->
    devs (world s) !! device = Some d ->
    loads msg = inr payload ->
    exists s',
      step (Reader msg) s = Some s'
      /\ pending s' = pending s ++ [mkTask device payload]
      /\ finished s' = finished s
      /\ world s' = world s /\ ph s' = Active
      /\ reader_task s' = Running /\ writer_task s' = writer_task s
      /\ (forall msg', is_Some (step (Reader msg') s'))
      /\ (forall ev s'',
            step ev s' = Some s'' ->
            ev = RunTask (length (pending s)) \/ mkTask device payload ∈ pending s'')
      /\ step (RunTask (length (pending s))) s'
         = Some (mkSession (world s) (self s) Active Running (writer_task s) (pending s)
                           (finished s
                            ++ [(mkTask device payload,
                                 on_message from_payload apply d payload)])).
Proof.
  intros s c device d msg payload Hph Hr Hc H0 Hd Hl.
  eexists. split.
  - apply (reader_creates_task s c device d msg payload Hph Hr Hc H0 Hd Hl).
  - cbn [pending finished world ph reader_task writer_task].
    do 6 (split; [reflexivity |]). split; [| split].
    + intros msg'. apply reader_ready; reflexivity.
    + intros ev s'' Hstep.
      eapply other_turns_leave_task_pending; [| exact Hstep]. reflexivity.
    + apply (last_task_runs (world s) (self s) Running (writer_task s) (pending s)
               (finished s) (mkTask device payload) d Hd).
Qed.

(** C10: in an active session whose registry is empty, any received frame
    ends the reader with [IndexError] ("list index out of range"): no
    task is created, nothing else changes, and the reader takes no further
    frame. *)
Theorem C10_empty_registry_stops_reader :
  forall (s : Session) (c : t) (msg : string),
    ph s = Active -> reader_task s = Running ->
    clients (world s) !! self s = Some c ->
    devices c = [] ->
    exists s',
      step (Reader msg) s = Some s'
      /\ reader_task s' = Failed (IndexError "list index out of range")
      /\ pending s' = pending s /\ finished s' = finished s
      /\ world s' = world s
      /\ (forall msg', step (Reader msg') s' = None).
Proof.
  intros s c msg Hph Hr Hc Hnil.
  eexists. split.
  - unfold step. rewrite Hph, Hr.
    unfold reader, bind, the_client. rewrite Hc, Hnil. reflexivity.
  - simpl. do 4 (split; [reflexivity |]). intros msg'. reflexivity.
Qed.

(** C4 (as amended): in an active session whose first registry entry is a
    device, a received frame that decodes as JSON and whose command fails
    to decode or to dispatch leaves the reader running.  The failure is
    raised when the frame's own task runs and stays there as the outcome
    of that task; the store, and with it the log, is unchanged.  The next
    frame that decodes is again handed to the first device as a task, and
    that task runs. *)
Theorem C4_failed_dispatch_stays_in_its_task :
  forall (s : Session) (c : t) (device : ref) (d : Device.t)
         (msg : string) (payload : pyval) (e : exn),
    ph s = Active -> reader_task s = Running ->
    clients (world s) !! self s = Some c ->
    devices c !! 0%nat = Some device ->
    devs (world s) !! device = Some d ->
    loads msg = inr payload ->
    (from_payload payload = inl e
     \/ exists command, from_payload payload = inr command /\ apply command d = inl e) ->
    exists s1 s2,
      step (Reader msg) s = Some s1
      /\ step (RunTask (length (pending s))) s1 = Some s2
      /\ finished s2 = finished s ++ [(mkTask device payload, inl e)]
      /\ pending s2 = pending s
      /\ world s1 = world s /\ world s2 = world s
      /\ ph s1 = Active /\ ph s2 = Active
      /\ reader_task s1 = Running /\ reader_task s2 = Running
      /\ (forall msg' payload',
            loads msg' = inr payload' ->
            exists s3,
              step (Reader msg') s2 = Some s3
              /\ reader_task s3 = Running
              /\ pending s3 = pending s2 ++ [mkTask device payload']
              /\ step (RunTask (length (pending s2))) s3
                 = Some (mkSession (world s) (self s) Active Running (writer_task s)
                                   (pending s2)
                                   (finished s2
                                    ++ [(mkTask device payload',
                                         on_message from_payload apply d payload')]))).
Proof.
  intros s c device d msg payload e Hph Hr Hc H0 Hd Hl Hfail.
  assert (He : on_message from_payload apply d payload = inl e).
  { unfold on_message. destruct Hfail as [Hdec|(command & Hdec & Happ)]; rewrite Hdec.
    - reflexivity.
    - exact Happ. }
  set (s1 := mkSession (world s) (self s) Active Running (writer_task s)
                       (pending s ++ [mkTask device payload]) (finished s)).
  set (s2 := mkSession (world s) (self s) Active Running (writer_task s) (pending s)
                       (finished s ++ [(mkTask device payload, inl e)])).
  exists s1, s2.
  split; [apply (reader_creates_task s c device d msg payload Hph Hr Hc H0 Hd Hl) |].
  split.
  { subst s1 s2. rewrite <- He.
    apply (last_task_runs (world s) (self s) Running (writer_task s) (pending s)
             (finished s) (mkTask device payload) d Hd). }
  do 8 (split; [reflexivity |]).
  intros msg' payload' Hl'.
  eexists. split.
  - apply (reader_creates_task s2 c device d msg' payload'); subst s2; auto.
  - cbn [pending reader_task]. do 2 (split; [reflexivity |]).
    apply (last_task_runs (world s) (self s) Running (writer_task s) (pending s2)
             (finished s2) (mkTask device payload') d Hd).
Qed.

End facts.

(** ** The theorems on the examples *)

Lemma C2_registration_handshake_witness :
  exists H : list string,
    Forall2 (announced registered_world (ipcd_version registered_client))
            (devices registered_client) H
    /\ length H = length (devices registered_client)
    /\ (devices registered_client = [] -> H = [])
    /\ (exists s,
          run json.loads example_from_payload example_apply
              (repeat ConnectLoop (S (length (devices registered_client))))
              (connect 0 registered_world) = Some s
          /\ ph s = Active
          /\ frames (world s) = frames registered_world ++ H
          /\ queue_of s = queue registered_client)
    /\ (forall evs s,
          run json.loads example_from_payload example_apply evs
              (connect 0 registered_world) = Some s ->
          match ph s with
          | Registering i =>
              i <= length (devices registered_client)
              /\ frames (world s) = frames registered_world ++ take i H
              /\ (forall msg k,
                    step json.loads example_from_payload example_apply (Reader msg) s
                    = None
                    /\ step json.loads example_from_payload example_apply Writer s
                       = None
                    /\ step json.loads example_from_payload example_apply (RunTask k) s
                       = None)
          | Active => exists rest, frames (world s) = frames registered_world ++ H ++ rest
          | Crashed _ => False
          end).
Proof.
  apply (C2_registration_handshake json.loads example_from_payload example_apply
           registered_world 0%nat registered_client).
  - reflexivity.
  - repeat constructor; eexists; reflexivity.
Defined.

(** The two announcements of the example, as they go out. *)
Lemma registered_handshake_frames :
  frames (world example_session)
  = [json.text "{'device': {'ipcdver': '1.0', 'vendor': 'Acme', 'model': 'X1', 'sn': '123'}, 'events': ['onBoot', 'onConnect']}";
     json.text "{'device': {'ipcdver': '1.0', 'vendor': 'Acme', 'model': 'X2', 'sn': '456'}, 'events': ['onBoot', 'onConnect']}"].
Proof. vm_compute. reflexivity. Qed.

Lemma C3_outbound_fifo_witness :
  exists H : list string,
    Forall2 (announced registered_world (ipcd_version registered_client))
            (devices registered_client) H
    /\ (forall evs s,
          run json.loads example_from_payload example_apply evs
              (connect 0 registered_world) = Some s ->
          (exists written,
              frames (world s)
              = frames registered_world
                ++ match ph s with Registering i => take i H | _ => H end
                ++ written
              /\ written ++ queue_of s
                 = queue registered_client ++ enqueued registered_world 0 evs)
          /\ (ph s = Active ->
              exists s',
                run json.loads example_from_payload example_apply
                    (repeat Writer (length (queue_of s))) s = Some s'
                /\ frames (world s') = frames (world s) ++ queue_of s
                /\ queue_of s' = [])
          /\ (forall ev s',
                step json.loads example_from_payload example_apply ev s = Some s' ->
                match ev with
                | Writer =>
                    exists msg, queue_of s = msg :: queue_of s'
                                /\ frames (world s') = frames (world s) ++ [msg]
                | _ => exists l, queue_of s' = queue_of s ++ l
                end)).
Proof.
  apply (C3_outbound_fifo json.loads example_from_payload example_apply
           registered_world 0%nat registered_client).
  - reflexivity.
  - repeat constructor; eexists; reflexivity.
Defined.

(** A report, a value change and a second report, made while the
    handshake is still under way, leave the socket in that order. *)
Lemma fifo_on_the_example :
  (frames ∘ world) <$>
    run json.loads example_from_payload example_apply
        [ConnectLoop;
         Caller (Report 1 (PInt 1));
         ConnectLoop;
         Caller (OnValueChange 0 (PInt 2));
         ConnectLoop;
         Writer;
         Caller (Report 0 (PInt 3));
         Writer; Writer]
        (connect 0 registered_world)
  = Some (frames (world example_session)
          ++ [json.text "{'device': {'ipcdver': '1.0', 'vendor': 'Acme', 'model': 'X2', 'sn': '456'}, 'report': 1}";
              json.text "{'device': {'ipcdver': '1.0', 'vendor': 'Acme', 'model': 'X1', 'sn': '123'}, 'events': ['onValueChanges'], 'valueChanges': 2}";
              json.text "{'device': {'ipcdver': '1.0', 'vendor': 'Acme', 'model': 'X1', 'sn': '123'}, 'report': 3}"]).
Proof. vm_compute. reflexivity. Qed.

Lemma C8_dispatch_to_first_device_witness :
  exists s',
    step json.loads example_from_payload example_apply (Reader addressed_command)
         example_session = Some s'
    /\ pending s' = pending example_session ++ [mkTask 0 addressed_payload]
    /\ finished s' = finished example_session
    /\ world s' = world example_session /\ ph s' = Active
    /\ reader_task s' = Running /\ writer_task s' = writer_task example_session
    /\ (forall msg',
          is_Some (step json.loads example_from_payload example_apply (Reader msg') s'))
    /\ (forall ev s'',
          step json.loads example_from_payload example_apply ev s' = Some s'' ->
          ev = RunTask (length (pending example_session))
          \/ mkTask 0 addressed_payload ∈ pending s'')
    /\ step json.loads example_from_payload example_apply
            (RunTask (length (pending example_session))) s'
       = Some (mkSession (world example_session) (self example_session) Active Running
                         (writer_task example_session) (pending example_session)
                         (finished example_session
                          ++ [(mkTask 0 addressed_payload,
                               on_message example_from_payload example_apply
                                          (Device.mk "Acme" "X1" "123" (Some "1.0")
                                                     (Some 0%nat))
                                          addressed_payload)])).
Proof.
  apply (C8_dispatch_to_first_device json.loads example_from_payload example_apply
           example_session registered_client 0%nat
           (Device.mk "Acme" "X1" "123" (Some "1.0") (Some 0%nat))
           addressed_command addressed_payload);
    reflexivity.
Defined.

(** C8 as stated fails in its last clause.  The reader hands the command
    [set_command] to a task and is free for the next frame; but
    [on_message] waits for nothing, so whatever the handler of the command
    is, and however long it takes, the task's one turn is the whole
    command: the loop goes from the session in which the command has not
    begun to the one in which it has ended, and neither reads nor writes
    in between.  From the first of the two, the next frame is read with
    the command still to come, or the command runs; no frame is read
    while the command runs. *)
Lemma C8_command_holds_the_loop_until_it_ends :
  exists s1,
    step json.loads example_from_payload example_apply (Reader set_command)
         example_session = Some s1
    /\ pending s1 = [mkTask 0 set_payload] /\ finished s1 = []
    /\ forall handler : command.Command -> Device.t -> exn + unit,
        exists s2,
          step json.loads example_from_payload handler (RunTask 0) s1 = Some s2
          /\ pending s2 = []
          /\ finished s2
             = [(mkTask 0 set_payload,
                 on_message example_from_payload handler
                            (Device.mk "Acme" "X1" "123" (Some "1.0") (Some 0%nat))
                            set_payload)]
          /\ world s2 = world s1
          /\ reader_task s2 = reader_task s1 /\ writer_task s2 = writer_task s1
          /\ (forall ev s',
                step json.loads example_from_payload handler ev s1 = Some s' ->
                (ev = RunTask 0 /\ s' = s2)
                \/ (mkTask 0 set_payload ∈ pending s' /\ finished s' = [])).
Proof.
  eexists.
  split; [vm_compute; reflexivity |].
  split; [reflexivity |]. split; [reflexivity |].
  intros handler. eexists.
  split; [reflexivity |].
  do 5 (split; [reflexivity |]).
  intros ev s' Hstep.
  assert (Hturn : ev = RunTask 0 \/ mkTask 0 set_payload ∈ pending s').
  { eapply (other_turns_leave_task_pending _ _ _ _ s' []); [| exact Hstep].
    reflexivity. }
  destruct Hturn as [->|Hin].
  - left. split; [reflexivity |].
    cbv [step ph pending lookup list_lookup] in Hstep. inversion Hstep. reflexivity.
  - right. split; [exact Hin |].
    destruct ev as [|msg| |k|op].
    + discriminate.
    + unfold step in Hstep. cbn [ph reader_task] in Hstep.
      match type of Hstep with
      | match ?r with _ => _ end = _ => destruct r as [[e|t] w']
      end; inversion Hstep; reflexivity.
    + discriminate.
    + destruct k as [|k]; [| discriminate].
      cbv [step ph pending lookup list_lookup] in Hstep.
      inversion Hstep; subst s'.
      apply elem_of_nil in Hin. contradiction.
    + unfold step in Hstep. cbn [ph] in Hstep. inversion Hstep. reflexivity.
Qed.

Lemma C10_empty_registry_stops_reader_witness :
  exists s',
    step json.loads example_from_payload example_apply (Reader set_command)
         unregistered_session = Some s'
    /\ reader_task s' = Failed (IndexError "list index out of range")
    /\ pending s' = pending unregistered_session
    /\ finished s' = finished unregistered_session
    /\ world s' = world unregistered_session
    /\ (forall msg',
          step json.loads example_from_payload example_apply (Reader msg') s' = None).
Proof.
  apply (C10_empty_registry_stops_reader json.loads example_from_payload example_apply
           unregistered_session (mk "wss://example.test" "1.0" [] []) set_command);
    reflexivity.
Defined.

Lemma C4_failed_dispatch_stays_in_its_task_witness :
  exists s1 s2,
    step json.loads example_from_payload example_apply (Reader (json.text "{}"))
         example_session = Some s1
    /\ step json.loads example_from_payload example_apply
            (RunTask (length (pending example_session))) s1 = Some s2
    /\ finished s2
       = finished example_session ++ [(mkTask 0 (PDict []), inl MalformedCommand)]
    /\ pending s2 = pending example_session
    /\ world s1 = world example_session /\ world s2 = world example_session
    /\ ph s1 = Active /\ ph s2 = Active
    /\ reader_task s1 = Running /\ reader_task s2 = Running
    /\ (forall msg' payload',
          json.loads msg' = inr payload' ->
          exists s3,
            step json.loads example_from_payload example_apply (Reader msg') s2 = Some s3
            /\ reader_task s3 = Running
            /\ pending s3 = pending s2 ++ [mkTask 0 payload']
            /\ step json.loads example_from_payload example_apply
                    (RunTask (length (pending s2))) s3
               = Some (mkSession (world example_session) (self example_session) Active
                                 Running (writer_task example_session) (pending s2)
                                 (finished s2
                                  ++ [(mkTask 0 payload',
                                       on_message example_from_payload example_apply
                                                  (Device.mk "Acme" "X1" "123"
                                                             (Some "1.0") (Some 0%nat))
                                                  payload')]))).
Proof.
  apply (C4_failed_dispatch_stays_in_its_task json.loads example_from_payload
           example_apply example_session registered_client 0%nat
           (Device.mk "Acme" "X1" "123" (Some "1.0") (Some 0%nat))
           (json.text "{}") (PDict []) MalformedCommand);
    try reflexivity.
  left. reflexivity.
Defined.

(** C4 as stated fails on two counts.  With no device registered, a frame
    without discriminator ends the reader, and the valid command that
    follows is not taken.  With a device registered, the same frame fails
    in its task and the session goes on, but no code of the client catches
    the error or hands a record to the logger: the error is the outcome of
    the finished task, and the log is empty. *)
Lemma C4_malformed_frame_not_caught_nor_logged :
  (exists s,
      run json.loads example_from_payload example_apply
          [ConnectLoop; Reader (json.text "{}")] (connect 0 example_world) = Some s
      /\ reader_task s = Failed (IndexError "list index out of range")
      /\ step json.loads example_from_payload example_apply (Reader set_command) s = None)
  /\ (exists s,
        run json.loads example_from_payload example_apply
            [Reader (json.text "{}"); RunTask 0] example_session = Some s
        /\ finished s = [(mkTask 0 (PDict []), inl MalformedCommand)]
        /\ log (world s) = []).
Proof.
  split; eexists; (split; [vm_compute; reflexivity |]); split; vm_compute; reflexivity.
Qed.

(** ** Beyond the claims *)

Lemma append_cons (x : ascii) (a b : string) : String x a +:+ b = String x (a +:+ b).
Proof. reflexivity. Qed.

Lemma append_assoc (a b c : string) : (a +:+ b) +:+ c = a +:+ (b +:+ c).
Proof.
  induction a as [|x a IH]; [reflexivity |].
  rewrite !append_cons, IH. reflexivity.
Qed.

(** A text is cut at its first slash in one way only. *)
Lemma cut_at_first_slash (a a' b b' : string) :
  has_slash a = false -> has_slash a' = false ->
  a +:+ "/" +:+ b = a' +:+ "/" +:+ b' ->
  a = a' /\ b = b'.
Proof.
  revert a'. induction a as [|x a IH]; intros [|x' a'] Ha Ha' Heq;
    rewrite ?append_cons in Heq; change ("" +:+ "/" +:+ b) with (String "/" b) in *;
    change ("" +:+ "/" +:+ b') with (String "/" b') in *; simpl in *.
  - inversion Heq. auto.
  - inversion Heq; subst x'. simpl in Ha'. discriminate.
  - inversion Heq; subst x. simpl in Ha. discriminate.
  - inversion Heq; subst x'.
    apply orb_false_iff in Ha as [_ Ha]. apply orb_false_iff in Ha' as [_ Ha'].
    destruct (IH a' Ha Ha' H1) as [-> ->]. auto.
Qed.

(** X1: for one client, the report URLs of two devices whose vendor and
    model have no slash in them are equal only if the devices have the same
    vendor, model and serial. *)
Theorem X1_report_url_determines_device :
  forall w self d1 d2 c a b,
    clients w !! self = Some c ->
    devs w !! d1 = Some a -> devs w !! d2 = Some b ->
    has_slash (Device.vendor a) = false -> has_slash (Device.model a) = false ->
    has_slash (Device.vendor b) = false -> has_slash (Device.model b) = false ->
    fst (get_report_url self d1 w) = fst (get_report_url self d2 w) ->
    Device.vendor a = Device.vendor b
    /\ Device.model a = Device.model b
    /\ Device.sn a = Device.sn b.
Proof.
  intros w self d1 d2 c a b Hc Ha Hb Hva Hma Hvb Hmb Heq.
  unfold get_report_url, bind, the_client, the_device, ret in Heq.
  rewrite Hc, Ha, Hb in Heq. simpl in Heq. inversion Heq as [Hu].
  do 4 apply String.app_inj in Hu.
  destruct (cut_at_first_slash _ _ _ _ Hva Hvb Hu) as [Hv Hrest].
  destruct (cut_at_first_slash _ _ _ _ Hma Hmb Hrest) as [Hm Hs].
  auto.
Qed.

(** Without the condition the URL does not tell devices apart: the
    slash of a vendor "a/b" reads as the separator before the model. *)
Lemma report_url_collision (host ver sn : string) :
  host +:+ "/ipcd/" +:+ ver +:+ "/report/" +:+ "a/b" +:+ "/" +:+ "c" +:+ "/" +:+ sn
  = host +:+ "/ipcd/" +:+ ver +:+ "/report/" +:+ "a" +:+ "/" +:+ "b/c" +:+ "/" +:+ sn.
Proof. reflexivity. Qed.

Lemma continues_refl (w : World) : continues w w.
Proof.
  split; [reflexivity | reflexivity | |].
  - intros k c Hc. exists c. auto.
  - intros r d Hd. exists d. auto 10.
Qed.

Lemma continues_trans (w1 w2 w3 : World) :
  continues w1 w2 -> continues w2 w3 -> continues w1 w3.
Proof.
  intros [Hw1 Hl1 Hc1 Hd1] [Hw2 Hl2 Hc2 Hd2]. split.
  - congruence.
  - etrans; eassumption.
  - intros k c Hc.
    destruct (Hc1 k c Hc) as (c' & Hc' & Hh & Hv & Hds & Hq).
    destruct (Hc2 k c' Hc') as (c'' & Hc'' & Hh' & Hv' & Hds' & Hq').
    exists c''. split; [assumption |].
    split; [congruence |]. split; [congruence |].
    split; etrans; eassumption.
  - intros r d Hd.
    destruct (Hd1 r d Hd) as (d' & Hd' & H1 & H2 & H3 & H4 & H5).
    destruct (Hd2 r d' Hd') as (d'' & Hd'' & H1' & H2' & H3' & H4' & H5').
    exists d''. split; [assumption |].
    repeat split; try congruence. auto.
Qed.

(** A call to [on_value_change], [send] or [report] leaves the store as it
    was or has put one payload on the queue of its client. *)
Lemma perform_world (w : World) (self : cref) (op : call) :
  snd (perform self op w) = w
  \/ exists c payload record,
      clients w !! self = Some c
      /\ snd (perform self op w) = enqueued_world w self c payload record.
Proof.
  destruct (clients w !! self) as [c|] eqn:Hc.
  - destruct (devs w !! device_of op) as [d|] eqn:Hd.
    + destruct op as [device m|device m|device m]; cbn [device_of perform] in *;
        unfold send;
        rewrite ?(on_value_change_unfold w self device c d m Hc Hd),
                ?(report_unfold w self device c d m Hc Hd);
        match goal with |- context [json.dumps ?v] => destruct (json.dumps v) as [e|p] end;
        simpl; eauto 10.
    + left. destruct op as [device m|device m|device m]; cbn [device_of perform] in *;
        unfold send, on_value_change, report, bind, the_client, the_device;
        rewrite Hc, Hd; reflexivity.
  - left. destruct op as [device m|device m|device m]; cbn [perform];
      unfold send, on_value_change, report, bind, the_client;
      rewrite Hc; reflexivity.
Qed.

Lemma enqueued_world_continues (w : World) (self : cref) (c : t) (payload record : string) :
  clients w !! self = Some c ->
  continues w (enqueued_world w self c payload record).
Proof.
  intros Hc. split; simpl.
  - reflexivity.
  - apply prefix_app_r. reflexivity.
  - intros k c0 Hk. destruct (decide (self = k)) as [->|Hne].
    + rewrite lookup_insert_eq. rewrite Hc in Hk. inversion Hk; subst c0.
      eexists. split; [reflexivity |]. simpl.
      do 3 (split; [reflexivity |]). apply prefix_app_r. reflexivity.
    + rewrite lookup_insert_ne by assumption. exists c0. auto.
  - intros r d Hd. exists d. auto 10.
Qed.

Lemma api_call_continues (a : api) (w : World) : continues w (api_call a w).
Proof.
  destruct a as [host|vendor model sn ver|self device|self op]; simpl.
  - unfold __init__, bind, _validate_hostname.
    destruct (String.eqb host ""); simpl; [apply continues_refl |].
    split; simpl; [reflexivity | reflexivity | |].
    + intros k c Hc. exists c. rewrite lookup_insert_ne; [auto |].
      intros Heq. rewrite <- Heq, fresh_client_unused in Hc. discriminate.
    + intros r d Hd. exists d. auto 10.
  - split; simpl; [reflexivity | reflexivity | |].
    + intros k c Hc. exists c. auto.
    + intros r d Hd. exists d. rewrite lookup_insert_ne; [auto 10 |].
      intros Heq. rewrite <- Heq in Hd.
      assert (Hnone : devs w !! fresh (dom (devs w)) = None)
        by (apply not_elem_of_dom, is_fresh).
      rewrite Hnone in Hd. discriminate.
  - unfold add_device, bind, the_device, the_client, store_device, store_client.
    destruct (devs w !! device) as [d|] eqn:Hd; simpl; [| apply continues_refl].
    destruct (clients w !! self) as [c|] eqn:Hc; simpl.
    + split; simpl; [reflexivity | reflexivity | |].
      * intros k c0 Hk. destruct (decide (self = k)) as [->|Hne].
        -- rewrite lookup_insert_eq. rewrite Hc in Hk. inversion Hk; subst c0.
           eexists. split; [reflexivity |]. simpl.
           do 2 (split; [reflexivity |]). split; [apply prefix_app_r |]; reflexivity.
        -- rewrite lookup_insert_ne by assumption. exists c0. auto.
      * intros r d0 Hr. destruct (decide (device = r)) as [->|Hne].
        -- rewrite lookup_insert_eq. rewrite Hd in Hr. inversion Hr; subst d0.
           eexists. split; [reflexivity |]. simpl. eauto 10.
        -- rewrite lookup_insert_ne by assumption. exists d0. auto 10.
    + split; simpl; [reflexivity | reflexivity | |].
      * intros k c0 Hk. exists c0. auto.
      * intros r d0 Hr. destruct (decide (device = r)) as [->|Hne].
        -- rewrite lookup_insert_eq. rewrite Hd in Hr. inversion Hr; subst d0.
           eexists. split; [reflexivity |]. simpl. eauto 10.
        -- rewrite lookup_insert_ne by assumption. exists d0. auto 10.
  - destruct (perform_world w self op) as [->|(c & payload & record & Hc & ->)].
    + apply continues_refl.
    + apply enqueued_world_continues; assumption.
Qed.

Lemma api_run_continues (script : list api) (w : World) :
  continues w (api_run script w).
Proof.
  revert w. induction script as [|a script IH]; intros w; simpl.
  - apply continues_refl.
  - eapply continues_trans; [apply api_call_continues | apply IH].
Qed.

Lemma bound_devices_continue (w w' : World) (ds : list ref) :
  continues w w' ->
  Forall (fun r => exists d, devs w !! r = Some d /\ is_Some (Device.get_client d)) ds ->
  Forall (fun r => exists d, devs w' !! r = Some d /\ is_Some (Device.get_client d)) ds.
Proof.
  intros Hcont Hall. eapply Forall_impl; [exact Hall |]. intros r (d & Hd & Hb).
  destruct (cont_devices _ _ Hcont r d Hd) as (d' & Hd' & _ & _ & _ & _ & Hb').
  exists d'. auto.
Qed.

Lemma api_call_well_formed (a : api) (w : World) :
  well_formed w -> well_formed (api_call a w).
Proof.
  intros Hwf k c' Hk.
  pose proof (api_call_continues a w) as Hcont.
  assert (Hold : forall c, clients w !! k = Some c -> devices c' = devices c ->
                           ipcd_version c' = ipcd_version c -> hostname c' = hostname c ->
                           ipcd_version c' = "1.0" /\ hostname c' <> ""
                           /\ Forall (fun r => exists d, devs (api_call a w) !! r = Some d
                                                         /\ is_Some (Device.get_client d))
                                     (devices c')).
  { intros c Hc Hds Hv Hh. destruct (Hwf k c Hc) as (Hv0 & Hh0 & Hall).
    rewrite Hds, Hv, Hh. split; [assumption |]. split; [assumption |].
    apply (bound_devices_continue w); assumption. }
  destruct a as [host|vendor model sn ver|self device|self op]; simpl in *.
  - unfold __init__, bind, _validate_hostname in *.
    destruct (String.eqb_spec host ""); simpl in *.
    + apply (Hold c'); auto.
    + destruct (decide (fresh (dom (clients w)) = k)) as [<-|Hne].
      * rewrite lookup_insert_eq in Hk. inversion Hk; subst c'. simpl. auto.
      * rewrite lookup_insert_ne in Hk by assumption. apply (Hold c'); auto.
  - apply (Hold c'); auto.
  - unfold add_device, bind, the_device, the_client, store_device, store_client in *.
    destruct (devs w !! device) as [d|] eqn:Hd; simpl in *; [| apply (Hold c'); auto].
    destruct (clients w !! self) as [c|] eqn:Hc; simpl in *; [| apply (Hold c'); auto].
    destruct (decide (self = k)) as [->|Hne].
    + rewrite lookup_insert_eq in Hk. inversion Hk; subst c'. simpl.
      destruct (Hwf k c Hc) as (Hv0 & Hh0 & Hall).
      split; [assumption |]. split; [assumption |].
      apply Forall_app. split.
      * match goal with
        | Hcont : continues w ?w' |- _ =>
            exact (bound_devices_continue w w' _ Hcont Hall)
        end.
      * constructor; [| constructor]. eexists. rewrite lookup_insert_eq.
        split; [reflexivity |]. simpl. eauto.
    + rewrite lookup_insert_ne in Hk by assumption. apply (Hold c'); auto.
  - destruct (perform_world w self op) as [Heq|(c & payload & record & Hc & Heq)];
      rewrite Heq in *.
    + apply (Hold c'); auto.
    + unfold enqueued_world in Hk; simpl in Hk.
      destruct (decide (self = k)) as [->|Hne].
      * rewrite lookup_insert_eq in Hk. inversion Hk; subst c'. simpl.
        apply (Hold c); auto.
      * rewrite lookup_insert_ne in Hk by assumption. apply (Hold c'); auto.
Qed.

Lemma api_run_well_formed (script : list api) (w : World) :
  well_formed w -> well_formed (api_run script w).
Proof.
  revert w. induction script as [|a script IH]; intros w Hwf; simpl; [assumption |].
  apply IH, api_call_well_formed, Hwf.
Qed.

Lemma empty_world_well_formed : well_formed empty_world.
Proof.
  intros k c Hc. unfold empty_world in Hc; simpl in Hc.
  rewrite lookup_empty in Hc. discriminate.
Qed.

(** X4: whatever calls are made on a store (constructions, registrations,
    value changes and reports, in any number and order, failing or not),
    every client that was there is still there with the same hostname and
    version, its registry and its queue are the old ones extended at the
    end, and every device that was there is still there with the same
    vendor, model, serial and version, and is bound to a client if it
    was. *)
Theorem X4_calls_keep_configuration_and_identity :
  forall (script : list api) (w : World),
    (forall k c,
        clients w !! k = Some c ->
        exists c',
          clients (api_run script w) !! k = Some c'
          /\ hostname c' = hostname c /\ ipcd_version c' = ipcd_version c
          /\ devices c `prefix_of` devices c'
          /\ queue c `prefix_of` queue c')
    /\ (forall r d,
          devs w !! r = Some d ->
          exists d',
            devs (api_run script w) !! r = Some d'
            /\ Device.vendor d' = Device.vendor d
            /\ Device.model d' = Device.model d
            /\ Device.sn d' = Device.sn d
            /\ Device.ipcd_version d' = Device.ipcd_version d
            /\ (is_Some (Device.get_client d) -> is_Some (Device.get_client d'))).
Proof.
  intros script w. destruct (api_run_continues script w) as [_ _ Hc Hd].
  split; assumption.
Qed.

(** X5: no construction, registration, value change or report reaches
    the network, and none takes a record back from the log. *)
Theorem X5_calls_stay_off_the_network :
  forall (script : list api) (w : World),
    wire (api_run script w) = wire w
    /\ log w `prefix_of` log (api_run script w).
Proof.
  intros script w. destruct (api_run_continues script w) as [Hw Hl _ _].
  split; assumption.
Qed.

(** X6: in every store that calls build from the empty one, each client
    has the version "1.0" and a hostname that is not empty, and each entry
    of each registry is a device object whose back-reference is set. *)
Theorem X6_built_stores_are_well_formed :
  forall (script : list api) (k : cref) (c : t),
    clients (api_run script empty_world) !! k = Some c ->
    ipcd_version c = "1.0" /\ hostname c <> ""
    /\ Forall (fun r => exists d, devs (api_run script empty_world) !! r = Some d
                                  /\ is_Some (Device.get_client d))
              (devices c).
Proof.
  intros script k c Hc.
  apply (api_run_well_formed script empty_world empty_world_well_formed k c Hc).
Qed.

Section more_facts.
Context {Command : Type}.
Variable loads : string -> exn + pyval.
Variable from_payload : pyval -> exn + Command.
Variable apply : Command -> Device.t -> exn + unit.

Abbreviation step := (step loads from_payload apply).
Abbreviation run := (run loads from_payload apply).

Lemma step_stays_active (ev : event) (s s' : Session) :
  step ev s = Some s' -> ph s = Active -> ph s' = Active.
Proof.
  intros Hstep Hact. unfold IpcdClient.step in Hstep. rewrite Hact in Hstep.
  destruct ev as [|msg| |k|op]; try discriminate.
  - destruct (reader_task s); [| discriminate].
    destruct (reader loads (self s) msg (world s)) as [[e|task] w'];
      inversion Hstep; reflexivity.
  - destruct (writer_task s); [| discriminate].
    destruct (writer (self s) (world s)) as [[e|[m|]] w'];
      inversion Hstep; try reflexivity. exact Hact.
  - destruct (pending s !! k); inversion Hstep; reflexivity.
  - inversion Hstep. exact Hact.
Qed.

Lemma run_stays_active (evs : list event) (s s' : Session) :
  run evs s = Some s' -> ph s = Active -> ph s' = Active.
Proof.
  revert s. induction evs as [|ev evs IH]; intros s Hrun Hact; simpl in Hrun.
  - inversion Hrun; subst; exact Hact.
  - destruct (step ev s) as [s1|] eqn:Hs; [| discriminate].
    apply (IH s1 Hrun), (step_stays_active ev s s1 Hs Hact).
Qed.

(** X7: what is on the queue when [connect] is called goes out right
    after the handshake: N + 1 turns of [connect_loop] and one turn of the
    writer per queued message leave on the socket the N announcements
    followed by the queued messages in their order, and the queue empty. *)
Theorem X7_queued_before_connect_is_sent_after_handshake :
  forall (w : World) (self0 : cref) (c : t),
    clients w !! self0 = Some c ->
    Forall (fun r => is_Some (devs w !! r)) (devices c) ->
    exists (H : list string) (s : Session),
      Forall2 (announced w (ipcd_version c)) (devices c) H
      /\ run (repeat ConnectLoop (S (length (devices c)))
              ++ repeat Writer (length (queue c)))
             (connect self0 w) = Some s
      /\ frames (world s) = frames w ++ H ++ queue c
      /\ queue_of s = []
      /\ ph s = Active.
Proof.
  intros w self0 c Hc Hlive.
  destruct (announcements_exist w (ipcd_version c) (devices c) Hlive) as [H HH].
  destruct (handshake_completes loads from_payload apply w self0 c H Hc HH
              (length (devices c)) 0 [] (connect self0 w)
              (inv_connect w self0 c H Hc))
    as (s1 & Hrun1 & Hact & Hfr & Hw); [unfold connect; rewrite Hc; reflexivity | lia |].
  destruct (inv_run loads from_payload apply w self0 c H Hc HH _ s1 Hrun1)
    as (Hself & Hwr & _ & c' & written & Hc' & _ & _ & _ & Hq & Hph).
  assert (Hqc : queue c' = queue c).
  { assert (Hclients : clients (world s1) = clients w)
      by (rewrite Hw; unfold connect; rewrite Hc; reflexivity).
    rewrite Hclients, Hc in Hc'. inversion Hc'. reflexivity. }
  destruct (writer_drains loads from_payload apply (queue c) s1 c' Hact Hwr)
    as (s2 & Hrun2 & Hfr2 & Hempty); [rewrite Hself; exact Hc' | exact Hqc |].
  exists H, s2. split; [exact HH |].
  rewrite run_app, Hrun1. split; [exact Hrun2 |].
  split; [rewrite Hfr2, Hfr, <- app_assoc; reflexivity |].
  split; [exact Hempty |].
  apply (run_stays_active _ _ _ Hrun2 Hact).
Qed.

(** X8: in an active session with a registered device, a frame that
    [json.loads] rejects ends the reader with that error: no task is
    created and no later frame is taken.  The writer is not affected and
    still empties the queue onto the socket. *)
Theorem X8_undecodable_frame_ends_reader_only :
  forall (s : Session) (c : t) (device : ref) (d : Device.t) (msg : string) (e : exn),
    ph s = Active -> reader_task s = Running -> writer_task s = Running ->
    clients (world s) !! self s = Some c ->
    devices c !! 0%nat = Some device ->
    devs (world s) !! device = Some d ->
    loads msg = inl e ->
    exists s',
      step (Reader msg) s = Some s'
      /\ reader_task s' = Failed e
      /\ pending s' = pending s /\ finished s' = finished s
      /\ world s' = world s
      /\ (forall msg', step (Reader msg') s' = None)
      /\ exists s'',
          run (repeat Writer (length (queue c))) s' = Some s''
          /\ frames (world s'') = frames (world s) ++ queue c
          /\ queue_of s'' = [].
Proof.
  intros s c device d msg e Hph Hr Hw Hc H0 Hd Hl.
  set (s' := mkSession (world s) (self s) Active (Failed e) (writer_task s)
                       (pending s) (finished s)).
  exists s'. split.
  - unfold IpcdClient.step. rewrite Hph, Hr.
    unfold reader, bind, the_client, the_device, lift.
    rewrite Hc, H0, Hd, Hl. reflexivity.
  - do 4 (split; [reflexivity |]). split; [intros msg'; reflexivity |].
    apply (writer_drains loads from_payload apply (queue c) s' c); auto.
Qed.

(** What a step does to the tasks: the reader adds one for the first
    device or ends, a task that runs moves from the pending ones to the
    finished ones, and every other step leaves them alone. *)
Lemma step_tasks (ev : event) (s s' : Session) (c : t) :
  clients (world s) !! self s = Some c ->
  step ev s = Some s' ->
  match ev with
  | Reader _ =>
      (pending s' = pending s
       \/ exists device payload,
           devices c !! 0%nat = Some device
           /\ pending s' = pending s ++ [mkTask device payload])
      /\ finished s' = finished s
  | RunTask k =>
      exists task outcome,
        pending s !! k = Some task
        /\ pending s' = delete k (pending s)
        /\ finished s' = finished s ++ [(task, outcome)]
  | _ => pending s' = pending s /\ finished s' = finished s
  end.
Proof.
  intros Hc Hstep. unfold IpcdClient.step in Hstep.
  destruct ev as [|msg| |k|op].
  - destruct (ph s) as [i| |]; try discriminate.
    destruct (connect_loop (self s) i (world s)) as [[e|p] w'];
      inversion Hstep; auto.
  - destruct (ph s); try discriminate. destruct (reader_task s); [| discriminate].
    unfold reader, bind, the_client in Hstep. rewrite Hc in Hstep.
    destruct (devices c !! 0%nat) as [device|] eqn:H0;
      [unfold the_device, lift, ret in Hstep;
       destruct (devs (world s) !! device); [destruct (loads msg) as [e|payload] |] |];
      simpl in Hstep; inversion Hstep; simpl; eauto 10.
  - destruct (ph s); try discriminate. destruct (writer_task s); [| discriminate].
    destruct (writer (self s) (world s)) as [[e|[m|]] w'];
      inversion Hstep; auto.
  - destruct (ph s); try discriminate.
    destruct (pending s !! k) as [task|] eqn:Hk; [| discriminate].
    inversion Hstep; simpl. eauto.
  - assert (Hs' : s' = with_world s (snd (perform (self s) op (world s))))
      by (destruct (ph s); inversion Hstep; reflexivity).
    subst s'. auto.
Qed.

(** X9: in every state a session can reach, each dispatch task, pending
    or finished, has the first entry of the registry as its receiver, and
    there are at most as many tasks as frames were received. *)
Theorem X9_every_task_targets_first_device :
  forall (w : World) (self0 : cref) (c : t),
    clients w !! self0 = Some c ->
    Forall (fun r => is_Some (devs w !! r)) (devices c) ->
    forall evs s,
      run evs (connect self0 w) = Some s ->
      Forall (fun task => devices c !! 0%nat = Some (target task)) (pending s)
      /\ Forall (fun done => devices c !! 0%nat = Some (target (fst done))) (finished s)
      /\ length (pending s) + length (finished s) <= frames_received evs.
Proof.
  intros w self0 c Hc Hlive.
  destruct (announcements_exist w (ipcd_version c) (devices c) Hlive) as [H HH].
  induction evs as [|ev evs IH] using rev_ind; intros s Hrun.
  - simpl in Hrun. inversion Hrun; subst. unfold connect. rewrite Hc. simpl.
    repeat constructor.
  - rewrite run_app in Hrun.
    destruct (run evs (connect self0 w)) as [s1|] eqn:Hr1; [| discriminate].
    simpl in Hrun. destruct (step ev s1) as [s2|] eqn:Hs; [| discriminate].
    inversion Hrun; subst s2.
    destruct (IH s1 eq_refl) as (Hp & Hf & Hn).
    destruct (inv_run loads from_payload apply w self0 c H Hc HH evs s1 Hr1)
      as (Hself & _ & _ & c' & written & Hc' & _ & _ & Hds & _).
    assert (Hcs : clients (world s1) !! self s1 = Some c') by (rewrite Hself; exact Hc').
    pose proof (step_tasks ev s1 s c' Hcs Hs) as Ht.
    assert (Hcount : forall ev0, frames_received (evs ++ [ev0])
                                 = frames_received evs
                                   + match ev0 with Reader _ => 1 | _ => 0 end).
    { intros ev0. clear. induction evs as [|x evs IH]; simpl.
      - destruct ev0; reflexivity.
      - destruct x; rewrite IH; reflexivity. }
    rewrite Hcount.
    destruct ev as [|msg| |k|op].
    + destruct Ht as [-> ->]. split; [exact Hp |]. split; [exact Hf |]. lia.
    + destruct Ht as [[->|(device & payload & H0 & ->)] ->].
      * split; [exact Hp |]. split; [exact Hf |]. lia.
      * rewrite Hds in H0. split.
        -- apply Forall_app. split; [exact Hp |]. constructor; [exact H0 | constructor].
        -- split; [exact Hf |]. rewrite length_app. simpl. lia.
    + destruct Ht as [-> ->]. split; [exact Hp |]. split; [exact Hf |]. lia.
    + destruct Ht as (task & outcome & Hk & -> & ->).
      split; [apply Forall_delete; exact Hp |].
      split.
      * apply Forall_app. split; [exact Hf |].
        constructor; [| constructor]. simpl.
        apply (Forall_lookup_1 _ _ _ _ Hp Hk).
      * rewrite length_delete by eauto. rewrite length_app. simpl.
        apply lookup_lt_Some in Hk. lia.
    + destruct Ht as [-> ->]. split; [exact Hp |]. split; [exact Hf |]. lia.
Qed.
End more_facts.

(** X3: [add_device] neither checks nor undoes an earlier registration.
    A device registered with one client and then with another is in both
    registries and refers to the second client only; registered twice
    with the same client it is in that registry twice. *)
Theorem X3_registration_is_neither_exclusive_nor_idempotent :
  forall w a b device ca cb d,
    clients w !! a = Some ca ->
    clients w !! b = Some cb ->
    devs w !! device = Some d ->
    (a <> b ->
     exists w' d' ca' cb',
       add_device b device (snd (add_device a device w)) = (inr tt, w')
       /\ devs w' !! device = Some d' /\ Device.get_client d' = Some b
       /\ clients w' !! a = Some ca' /\ devices ca' = devices ca ++ [device]
       /\ clients w' !! b = Some cb' /\ devices cb' = devices cb ++ [device])
    /\ (exists w' d' ca',
          add_device a device (snd (add_device a device w)) = (inr tt, w')
          /\ devs w' !! device = Some d' /\ Device.get_client d' = Some a
          /\ clients w' !! a = Some ca'
          /\ devices ca' = devices ca ++ [device; device]).
Proof.
  intros w a b device ca cb d Ha Hb Hd.
  assert (Hfirst : add_device a device w
                   = (inr tt,
                      mkWorld (<[device := Device._set_client d a]> (devs w))
                              (<[a := mk (hostname ca) (ipcd_version ca)
                                         (devices ca ++ [device]) (queue ca)]> (clients w))
                              (log w) (wire w))).
  { unfold add_device, bind, the_device, the_client, store_device, store_client.
    rewrite Hd. simpl. rewrite Ha. reflexivity. }
  rewrite Hfirst. cbn [snd]. split.
  - intros Hne.
    unfold add_device, bind, the_device, the_client, store_device, store_client. simpl.
    rewrite lookup_insert_eq. simpl. rewrite lookup_insert_ne by assumption. rewrite Hb.
    do 4 eexists. split; [reflexivity |]. simpl.
    rewrite !lookup_insert_eq. rewrite lookup_insert_ne by congruence.
    rewrite lookup_insert_eq. auto 10.
  - unfold add_device, bind, the_device, the_client, store_device, store_client. simpl.
    rewrite lookup_insert_eq. simpl. rewrite lookup_insert_eq.
    do 3 eexists. split; [reflexivity |]. simpl.
    rewrite !lookup_insert_eq. simpl. rewrite <- app_assoc. auto 10.
Qed.

(** X2: for a client whose version is "1.0", the report URL of a device
    is the URL [connect] opens, followed by "/report/" and the device's
    vendor, model and serial separated by slashes. *)
Theorem X2_report_url_extends_socket_url :
  forall w self device c d,
    clients w !! self = Some c ->
    ipcd_version c = "1.0" ->
    devs w !! device = Some d ->
    exists url,
      wire (world (connect self w)) = wire w ++ [Opened url]
      /\ get_report_url self device w
         = (inr (url +:+ "/report/" +:+ Device.vendor d +:+ "/" +:+ Device.model d
                 +:+ "/" +:+ Device.sn d), w).
Proof.
  intros w self device c d Hc Hv Hd.
  exists (hostname c +:+ "/ipcd/1.0"). split.
  - unfold connect. rewrite Hc. reflexivity.
  - unfold get_report_url, bind, the_client, the_device, ret. rewrite Hc, Hd, Hv.
    rewrite append_assoc. reflexivity.
Qed.

Lemma perform_log (w : World) (self : cref) (op : call) :
  log (snd (perform self op w)) = log w ++ map (record_of op) (enqueued_by w self op).
Proof.
  unfold enqueued_by.
  destruct (clients w !! self) as [c|] eqn:Hc.
  - destruct (devs w !! device_of op) as [d|] eqn:Hd.
    + destruct op as [device m|device m|device m];
        cbn [device_of envelope_of perform record_of] in *; unfold send;
        rewrite ?(on_value_change_unfold w self device c d m Hc Hd),
                ?(report_unfold w self device c d m Hc Hd);
        match goal with |- context [json.dumps ?v] => destruct (json.dumps v) as [e|p] end;
        simpl; rewrite ?app_nil_r; reflexivity.
    + simpl. rewrite app_nil_r.
      destruct op as [device m|device m|device m]; cbn [device_of perform] in *;
        unfold send, on_value_change, report, bind, the_client, the_device;
        rewrite Hc, Hd; reflexivity.
  - simpl. rewrite app_nil_r.
    destruct op as [device m|device m|device m]; cbn [perform];
      unfold send, on_value_change, report, bind, the_client;
      rewrite Hc; reflexivity.
Qed.

Section log_facts.
Context {Command : Type}.
Variable loads : string -> exn + pyval.
Variable from_payload : pyval -> exn + Command.
Variable apply : Command -> Device.t -> exn + unit.

Abbreviation step := (step loads from_payload apply).
Abbreviation run := (run loads from_payload apply).

Lemma step_log (ev : event) (s s' : Session) :
  step ev s = Some s' ->
  log (world s') = log (world s) ++ logged (world s) (self s) [ev].
Proof.
  intros Hstep. unfold IpcdClient.step in Hstep.
  destruct ev as [|msg| |k|op]; simpl; rewrite ?app_nil_r.
  - destruct (ph s) as [i| |]; try discriminate.
    unfold connect_loop, bind, the_client in Hstep.
    destruct (clients (world s) !! self s) as [c|]; [| inversion Hstep; reflexivity].
    destruct (devices c !! i) as [device|]; [| inversion Hstep; reflexivity].
    unfold announce, bind, the_client, the_device, lift in Hstep.
    destruct (clients (world s) !! self s); [| inversion Hstep; reflexivity].
    destruct (devs (world s) !! device); [| inversion Hstep; reflexivity].
    match type of Hstep with context [json.dumps ?v] => destruct (json.dumps v) end;
      inversion Hstep; reflexivity.
  - destruct (ph s); try discriminate. destruct (reader_task s); [| discriminate].
    unfold reader, bind, the_client in Hstep.
    destruct (clients (world s) !! self s) as [c|]; [| inversion Hstep; reflexivity].
    destruct (devices c !! 0%nat) as [device|]; [| inversion Hstep; reflexivity].
    unfold the_device, lift, ret in Hstep.
    destruct (devs (world s) !! device); [| inversion Hstep; reflexivity].
    destruct (loads msg); inversion Hstep; reflexivity.
  - destruct (ph s); try discriminate. destruct (writer_task s); [| discriminate].
    unfold writer, queue_get, bind, the_client in Hstep.
    destruct (clients (world s) !! self s) as [c|]; [| inversion Hstep; reflexivity].
    destruct (queue c); simpl in Hstep; inversion Hstep; reflexivity.
  - destruct (ph s); try discriminate.
    destruct (pending s !! k); inversion Hstep; reflexivity.
  - assert (Hs' : s' = with_world s (snd (perform (self s) op (world s))))
      by (destruct (ph s); inversion Hstep; reflexivity).
    subst s'. simpl. apply perform_log.
Qed.

Lemma logged_app (w : World) (self0 : cref) (evs evs' : list event) :
  logged w self0 (evs ++ evs') = logged w self0 evs ++ logged w self0 evs'.
Proof.
  induction evs as [|ev evs IH]; simpl; [reflexivity |].
  destruct ev; rewrite ?IH, ?app_assoc; reflexivity.
Qed.

(** X10: in every state a session can reach, the log is the log as
    [connect] found it followed by one record for each message that the
    callers' calls put on the queue, in the order of the calls; the
    handshake, the reader, the writer and the dispatch tasks log
    nothing. *)
Theorem X10_log_has_one_record_per_enqueued_message :
  forall (w : World) (self0 : cref) (c : t),
    clients w !! self0 = Some c ->
    Forall (fun r => is_Some (devs w !! r)) (devices c) ->
    forall evs s,
      run evs (connect self0 w) = Some s ->
      log (world s) = log w ++ logged w self0 evs
      /\ length (logged w self0 evs) = length (enqueued w self0 evs).
Proof.
  intros w self0 c Hc Hlive.
  destruct (announcements_exist w (ipcd_version c) (devices c) Hlive) as [H HH].
  intros evs s Hrun. split.
  - revert s Hrun. induction evs as [|ev evs IH] using rev_ind; intros s Hrun.
    + simpl in Hrun. inversion Hrun; subst. unfold connect. rewrite Hc. simpl.
      rewrite app_nil_r. reflexivity.
    + rewrite run_app in Hrun.
      destruct (run evs (connect self0 w)) as [s1|] eqn:Hr1; [| discriminate].
      simpl in Hrun. destruct (step ev s1) as [s2|] eqn:Hs; [| discriminate].
      inversion Hrun; subst s2.
      rewrite (step_log ev s1 s Hs), (IH s1 eq_refl), logged_app, <- app_assoc.
      destruct (inv_run loads from_payload apply w self0 c H Hc HH evs s1 Hr1)
        as (Hself & _ & Hdevs & c' & written & Hc' & _ & Hv & _).
      do 2 f_equal. rewrite Hself.
      destruct ev; simpl; try reflexivity.
      rewrite (enqueued_by_stable w (world s1) self0 op c c' Hdevs Hc Hc' Hv).
      reflexivity.
  - clear. induction evs as [|ev evs IH]; simpl; [reflexivity |].
    destruct ev; try exact IH. rewrite !length_app, length_map, IH. reflexivity.
Qed.
End log_facts.

Lemma scanstring_escape_char (c : ascii) (tail : string) :
  json.scanstring (json.escape_char c +:+ tail)
  = match json.scanstring tail with
    | Some (str, rest) => Some (String c str, rest)
    | None => None
    end.
Proof.
  destruct c as [[] [] [] [] [] [] [] []]; reflexivity.
Qed.

Lemma scanstring_escape (s rest : string) :
  json.scanstring (json.escape s +:+ String json.dquote rest) = Some (s, rest).
Proof.
  induction s as [|c s IH].
  - reflexivity.
  - cbn [json.escape]. rewrite append_assoc, scanstring_escape_char, IH. reflexivity.
Qed.

Ltac digit_case IH :=
  cbn [json.read_digits];
  match goal with
  | |- context [json.digit_val ?c] =>
      let v := eval vm_compute in (json.digit_val c) in
      change (json.digit_val c) with v
  end;
  cbv iota beta;
  match goal with
  | |- json.read_digits ?z _ = (Z.pos (Pos.of_uint_acc _ ?a), _) =>
      replace z with (Z.pos a) by lia
  end;
  apply IH; assumption.

Lemma read_digits_uint (d : Decimal.uint) :
  forall (acc : positive) (rest : string),
    delimited rest = true ->
    json.read_digits (Z.pos acc) (NilEmpty.string_of_uint d +:+ rest)
    = (Z.pos (Pos.of_uint_acc d acc), rest).
Proof.
  induction d as [|d IH|d IH|d IH|d IH|d IH|d IH|d IH|d IH|d IH|d IH];
    intros acc rest Hrest; cbn [NilEmpty.string_of_uint Pos.of_uint_acc];
    rewrite ?append_cons; try (digit_case IH).
  change ("" +:+ rest) with rest.
  destruct rest as [|c rest]; [reflexivity |].
  simpl in Hrest. cbn [json.read_digits].
  destruct c as [[] [] [] [] [] [] [] []]; try discriminate; reflexivity.
Qed.

Lemma nzhead_not_D0 (d l : Decimal.uint) : Decimal.nzhead d <> Decimal.D0 l.
Proof. induction d; simpl; try discriminate. assumption. Qed.

Lemma to_uint_not_D0 (p : positive) (l : Decimal.uint) : Pos.to_uint p <> Decimal.D0 l.
Proof.
  intros E.
  pose proof (Unsigned.of_to p) as Hof.
  pose proof (Unsigned.to_of (Pos.to_uint p)) as Hnorm.
  rewrite Hof in Hnorm. cbn [N.to_uint] in Hnorm.
  rewrite E in Hnorm, Hof. rewrite unorm_D0 in Hnorm. unfold Decimal.unorm in Hnorm.
  destruct (Decimal.nzhead l) eqn:Hl.
  - inversion Hnorm; subst l. simpl in Hof. discriminate.
  - apply (nzhead_not_D0 l u). rewrite Hl. symmetry. inversion Hnorm. reflexivity.
  - inversion Hnorm.
  - inversion Hnorm.
  - inversion Hnorm.
  - inversion Hnorm.
  - inversion Hnorm.
  - inversion Hnorm.
  - inversion Hnorm.
  - inversion Hnorm.
  - inversion Hnorm.
Qed.

Lemma delimited_lookahead {A} (rest : string) (x : A) :
  delimited rest = true ->
  match rest with
  | String "."%char _ | String "e"%char _ | String "E"%char _ => None
  | _ => Some x
  end = Some x.
Proof.
  destruct rest as [|c rest]; [reflexivity |]. simpl.
  destruct c as [[] [] [] [] [] [] [] []]; try discriminate; reflexivity.
Qed.

(** The digits of a positive number, read back. *)
Lemma scan_unsigned (p : positive) (rest : string) :
  delimited rest = true ->
  exists c tail d,
    NilZero.string_of_uint (Pos.to_uint p) +:+ rest = String c tail
    /\ json.digit_val c = Some (S d)
    /\ json.read_digits (Z.of_nat (S d)) tail = (Z.pos p, rest)
    /\ json.is_ws c = false
    /\ Ascii.eqb c json.dquote = false
    /\ (forall fuel, json.scan_once (S fuel) (String c tail) = json.scan_int (String c tail)).
Proof.
  intros Hrest.
  pose proof (Unsigned.of_to p) as Hof.
  pose proof (to_uint_not_D0 p) as Hnz.
  destruct (Pos.to_uint p) as [|l|l|l|l|l|l|l|l|l|l] eqn:E;
    cbn [Pos.of_uint] in Hof; try discriminate;
    [exfalso; apply (Hnz l); reflexivity | ..];
    inversion Hof as [Hp];
    cbn [NilZero.string_of_uint NilEmpty.string_of_uint]; rewrite append_cons;
    do 3 eexists; (split; [reflexivity |]); (split; [reflexivity |]);
    (split; [| split; [reflexivity | split; [reflexivity |]]]).
  all: try (intros fuel; reflexivity).
  all: match goal with
       | |- json.read_digits ?z _ = _ =>
           let v := eval vm_compute in z in change z with v
       end;
       rewrite (read_digits_uint l _ rest Hrest); reflexivity.
Qed.

Lemma scan_int_encode (z : Z) (rest : string) :
  delimited rest = true ->
  exists c tail,
    json.encode_int z +:+ rest = String c tail
    /\ json.is_ws c = false
    /\ Ascii.eqb c "]"%char = false /\ Ascii.eqb c "}"%char = false
    /\ forall fuel, json.scan_once (S fuel) (String c tail) = Some (PInt z, rest).
Proof.
  intros Hrest. unfold json.encode_int.
  destruct z as [|p|p]; cbn [Z.to_int NilZero.string_of_int].
  - exists "0"%char, rest. split; [reflexivity |]. do 3 (split; [reflexivity |]).
    intros fuel. cbn [json.scan_once]. unfold json.scan_int.
    change (json.digit_val "0") with (Some 0%nat). cbv iota beta.
    cbn [Nat.eqb]. apply (delimited_lookahead rest _ Hrest).
  - destruct (scan_unsigned p rest Hrest) as (c & tail & d & Htext & Hd & Hread & Hws & Hq & Hscan).
    exists c, tail. split; [exact Htext |]. split; [exact Hws |].
    assert (Hc : Ascii.eqb c "]"%char = false /\ Ascii.eqb c "}"%char = false
                 /\ Ascii.eqb c "-"%char = false).
    { destruct c as [[] [] [] [] [] [] [] []]; try discriminate; auto. }
    destruct Hc as (H1 & H2 & H3). split; [exact H1 |]. split; [exact H2 |].
    intros fuel. rewrite Hscan. unfold json.scan_int.
    assert (Hminus : match String c tail with
                     | String "-"%char r => (true, r)
                     | _ => (false, String c tail)
                     end = (false, String c tail)).
    { destruct c as [[] [] [] [] [] [] [] []]; try discriminate; reflexivity. }
    rewrite Hminus, Hd. cbn [Nat.eqb]. rewrite Hread.
    apply (delimited_lookahead rest _ Hrest).
  - destruct (scan_unsigned p rest Hrest) as (c & tail & d & Htext & Hd & Hread & Hws & Hq & Hscan).
    exists "-"%char, (String c tail). rewrite append_cons, Htext.
    split; [reflexivity |]. do 3 (split; [reflexivity |]).
    intros fuel. cbn [json.scan_once]. unfold json.scan_int. rewrite Hd.
    cbn [Nat.eqb]. rewrite Hread.
    apply (delimited_lookahead rest (PInt (Z.neg p), rest) Hrest).
Qed.

Lemma pyval_nested_ind (P : pyval -> Prop) :
  P PNone ->
  (forall b, P (PBool b)) ->
  (forall z, P (PInt z)) ->
  (forall s, P (PStr s)) ->
  (forall l, Forall P l -> P (PList l)) ->
  (forall kv, Forall (fun p => P (snd p)) kv -> P (PDict kv)) ->
  (forall cls, P (PObject cls)) ->
  forall v, P v.
Proof.
  intros HN HB HI HS HL HD HO.
  fix IH 1. intros [| b | z | s | l | kv | cls].
  - exact HN.
  - apply HB.
  - apply HI.
  - apply HS.
  - apply HL. induction l as [|x l IHl]; constructor; [apply IH | exact IHl].
  - apply HD. induction kv as [|[k x] kv IHkv]; constructor; [apply IH | exact IHkv].
  - apply HO.
Qed.

Lemma append_nil_r (s : string) : s +:+ "" = s.
Proof. induction s as [|c s IH]; [reflexivity |]. rewrite append_cons, IH. reflexivity. Qed.

Lemma length_append (a b : string) :
  String.length (a +:+ b) = (String.length a + String.length b)%nat.
Proof.
  induction a as [|c a IH]; [reflexivity |].
  rewrite append_cons. simpl. rewrite IH. reflexivity.
Qed.

Lemma scan_once_string (fuel : nat) (t : string) :
  json.scan_once (S fuel) (String json.dquote t)
  = match json.scanstring t with
    | Some (str, rest) => Some (PStr str, rest)
    | None => None
    end.
Proof. reflexivity. Qed.

Lemma scan_once_array (fuel : nat) (c : ascii) (t : string) :
  json.is_ws c = false -> Ascii.eqb c "]"%char = false ->
  json.scan_once (S fuel) (String "["%char (String c t))
  = match json.scan_array fuel (String c t) with
    | Some (vs, rest) => Some (PList vs, rest)
    | None => None
    end.
Proof.
  intros Hws Hc. cbn [json.scan_once json.skip_ws]. rewrite Hws.
  destruct c as [[] [] [] [] [] [] [] []]; try discriminate; reflexivity.
Qed.

Lemma scan_once_object (fuel : nat) (t : string) :
  json.scan_once (S fuel) (String "{"%char (String json.dquote t))
  = match json.scan_object fuel (String json.dquote t) with
    | Some (pairs, rest) => Some (PDict (json.dict_of_pairs pairs), rest)
    | None => None
    end.
Proof. reflexivity. Qed.

Lemma skip_ws_head (c : ascii) (t : string) :
  json.is_ws c = false -> json.skip_ws (String c t) = String c t.
Proof. intros H. cbn [json.skip_ws]. rewrite H. reflexivity. Qed.

Lemma skip_ws_space (c : ascii) (t : string) :
  json.is_ws c = false -> json.skip_ws (String " "%char (String c t)) = String c t.
Proof. intros H. cbn [json.skip_ws]. change (json.is_ws " ") with true. cbv iota. rewrite H. reflexivity. Qed.

Lemma dumps_list (l : list pyval) :
  json.dumps (PList l)
  = match encode_items l with
    | inl e => inl e
    | inr ss => inr ("[" +:+ json.join ", " ss +:+ "]")
    end.
Proof.
  cbn [json.dumps].
  assert (H : (fix items (l : list pyval) : exn + list string :=
                 match l with
                 | [] => inr []
                 | x :: r =>
                     match json.dumps x with
                     | inl e => inl e
                     | inr sx =>
                         match items r with
                         | inl e => inl e
                         | inr sr => inr (sx :: sr)
                         end
                     end
                 end) l = encode_items l).
  { induction l as [|x l IH]; [reflexivity |]. cbn [encode_items]. rewrite <- IH. reflexivity. }
  rewrite H. reflexivity.
Qed.

Lemma dumps_dict (kv : list (string * pyval)) :
  json.dumps (PDict kv)
  = match encode_pairs kv with
    | inl e => inl e
    | inr ss => inr ("{" +:+ json.join ", " ss +:+ "}")
    end.
Proof.
  cbn [json.dumps].
  assert (H : (fix items (kv : list (string * pyval)) : exn + list string :=
                 match kv with
                 | [] => inr []
                 | (k, x) :: r =>
                     match json.dumps x with
                     | inl e => inl e
                     | inr sx =>
                         match items r with
                         | inl e => inl e
                         | inr sr => inr ((json.encode_str k +:+ ": " +:+ sx) :: sr)
                         end
                     end
                 end) kv = encode_pairs kv).
  { induction kv as [|[k x] kv IH]; [reflexivity |]. cbn [encode_pairs]. rewrite <- IH. reflexivity. }
  rewrite H. reflexivity.
Qed.

Lemma need_list (l : list pyval) : need (PList l) = S (need_items l).
Proof. reflexivity. Qed.

Lemma need_dict (kv : list (string * pyval)) : need (PDict kv) = S (need_pairs kv).
Proof. reflexivity. Qed.

Lemma join_cons2 (sep x y : string) (r : list string) :
  json.join sep (x :: y :: r) = x +:+ sep +:+ json.join sep (y :: r).
Proof. reflexivity. Qed.

Lemma scan_array_step (fuel : nat) (s : string) :
  json.scan_array (S fuel) s
  = match json.scan_once fuel s with
    | Some (v, rest) =>
        match json.skip_ws rest with
        | String "]"%char rest' => Some ([v], rest')
        | String ","%char rest' =>
            match json.scan_array fuel (json.skip_ws rest') with
            | Some (vs, rest'') => Some (v :: vs, rest'')
            | None => None
            end
        | _ => None
        end
    | None => None
    end.
Proof. reflexivity. Qed.

Lemma join_items_head (l : list pyval) (ss : list string) :
  Forall2 reads_back l ss -> l <> [] ->
  exists c t, json.join ", " ss = String c t /\ json.is_ws c = false
              /\ Ascii.eqb c "]"%char = false.
Proof.
  intros HF Hne. destruct HF as [|x sx l ss Hx HF]; [congruence |].
  destruct Hx as ((c & t & -> & Hws & Hb & _) & _).
  destruct ss as [|sy ss].
  - exists c, t. auto.
  - rewrite join_cons2, append_cons. eauto.
Qed.

Lemma scan_array_reads (l : list pyval) (ss : list string) :
  Forall2 reads_back l ss -> l <> [] ->
  forall rest fuel,
    need_items l <= fuel ->
    json.scan_array fuel (json.join ", " ss +:+ "]" +:+ rest) = Some (l, rest).
Proof.
  induction 1 as [|x sx l ss Hx HF IH]; [congruence |].
  intros _ rest fuel Hfuel. cbn [need_items] in Hfuel.
  destruct fuel as [|fuel]; [lia |].
  destruct Hx as (_ & _ & Hread).
  rewrite scan_array_step.
  destruct HF as [|y sy l ss Hy HF].
  - cbn [json.join].
    rewrite (Hread ("]" +:+ rest) fuel) by (reflexivity || lia).
    reflexivity.
  - rewrite join_cons2, !append_assoc.
    rewrite (Hread (", " +:+ json.join ", " (sy :: ss) +:+ "]" +:+ rest) fuel)
      by (reflexivity || lia).
    destruct (join_items_head (y :: l) (sy :: ss)) as (c & t & Hj & Hws & _);
      [constructor; assumption | discriminate |].
    change (", " +:+ json.join ", " (sy :: ss) +:+ "]" +:+ rest)
      with (String "," (String " " (json.join ", " (sy :: ss) +:+ "]" +:+ rest))).
    cbn [json.skip_ws]. change (json.is_ws ",") with false. cbv iota.
    rewrite Hj, append_cons, (skip_ws_space c _ Hws), <- append_cons, <- Hj.
    assert (Hne : y :: l <> []) by discriminate.
    rewrite (IH Hne rest fuel) by lia.
    reflexivity.
Qed.

Lemma encode_str_app (k tail : string) :
  json.encode_str k +:+ tail = String json.dquote (json.escape k +:+ String json.dquote tail).
Proof. unfold json.encode_str. rewrite append_cons, append_assoc. reflexivity. Qed.

Lemma scan_object_step (fuel : nat) (r : string) :
  json.scan_object (S fuel) (String json.dquote r)
  = match json.scanstring r with
    | Some (k, rest) =>
        match json.skip_ws rest with
        | String ":"%char rest1 =>
            match json.scan_once fuel (json.skip_ws rest1) with
            | Some (v, rest2) =>
                match json.skip_ws rest2 with
                | String "}"%char rest3 => Some ([(k, v)], rest3)
                | String ","%char rest3 =>
                    match json.scan_object fuel (json.skip_ws rest3) with
                    | Some (kvs, rest4) => Some ((k, v) :: kvs, rest4)
                    | None => None
                    end
                | _ => None
                end
            | None => None
            end
        | _ => None
        end
    | None => None
    end.
Proof. reflexivity. Qed.

Lemma join_pairs_head (kv : list (string * pyval)) (ss : list string) :
  Forall2 entry_reads kv ss -> kv <> [] ->
  exists t, json.join ", " ss = String json.dquote t.
Proof.
  intros HF Hne. destruct HF as [|p sp kv ss (sx & -> & _) HF]; [congruence |].
  rewrite encode_str_app.
  destruct ss as [|sy ss].
  - eexists. reflexivity.
  - rewrite join_cons2, append_cons. eexists. reflexivity.
Qed.

Lemma scan_object_reads (kv : list (string * pyval)) (ss : list string) :
  Forall2 entry_reads kv ss -> kv <> [] ->
  forall rest fuel,
    need_pairs kv <= fuel ->
    json.scan_object fuel (json.join ", " ss +:+ "}" +:+ rest) = Some (kv, rest).
Proof.
  induction 1 as [|[k x] sp kv ss Hp HF IH]; [congruence |].
  intros _ rest fuel Hfuel. cbn [need_pairs] in Hfuel.
  destruct fuel as [|fuel]; [lia |].
  destruct Hp as (sx & -> & (c & t & -> & Hws & _) & _ & Hread). cbn [fst snd] in *.
  assert (Hstep : forall after,
             delimited after = true ->
             json.scan_object (S fuel)
               ((json.encode_str k +:+ ": " +:+ String c t) +:+ after)
             = match json.skip_ws after with
               | String "}"%char rest3 => Some ([(k, x)], rest3)
               | String ","%char rest3 =>
                   match json.scan_object fuel (json.skip_ws rest3) with
                   | Some (kvs, rest4) => Some ((k, x) :: kvs, rest4)
                   | None => None
                   end
               | _ => None
               end).
  { intros after Hafter.
    rewrite !append_assoc, encode_str_app, scan_object_step, scanstring_escape.
    change (": " +:+ String c t +:+ after)
      with (String ":" (String " " (String c t +:+ after))).
    cbn [json.skip_ws]. change (json.is_ws ":") with false. cbv iota.
    rewrite append_cons, (skip_ws_space c _ Hws), <- append_cons.
    rewrite (Hread after fuel Hafter) by lia. reflexivity. }
  destruct HF as [|q sq kv ss Hq HF].
  - cbn [json.join]. rewrite (Hstep ("}" +:+ rest)) by reflexivity. reflexivity.
  - rewrite join_cons2, append_assoc.
    rewrite (Hstep ((", " +:+ json.join ", " (sq :: ss)) +:+ "}" +:+ rest)) by reflexivity.
    destruct (join_pairs_head (q :: kv) (sq :: ss)) as (t' & Hj);
      [constructor; assumption | discriminate |].
    rewrite append_assoc.
    change (", " +:+ json.join ", " (sq :: ss) +:+ "}" +:+ rest)
      with (String "," (String " " (json.join ", " (sq :: ss) +:+ "}" +:+ rest))).
    cbn [json.skip_ws]. change (json.is_ws ",") with false. cbv iota.
    rewrite Hj, append_cons.
    rewrite (skip_ws_space json.dquote _ eq_refl), <- append_cons, <- Hj.
    assert (Hne : q :: kv <> []) by discriminate.
    rewrite (IH Hne rest fuel) by lia.
    reflexivity.
Qed.

Lemma dict_set_fresh (k : string) (v : pyval) (d : list (string * pyval)) :
  existsb (String.eqb k) (map fst d) = false ->
  json.dict_set k v d = d ++ [(k, v)].
Proof.
  induction d as [|[k' v'] d IH]; intros H; [reflexivity |].
  cbn [map fst existsb] in H. apply orb_false_iff in H as [Hk Hd].
  cbn [json.dict_set]. rewrite Hk, (IH Hd). reflexivity.
Qed.

Lemma distinct_app_cons (a : list string) (k : string) (r : list string) :
  distinct (a ++ k :: r) = true ->
  existsb (String.eqb k) a = false /\ distinct ((a ++ [k]) ++ r) = true.
Proof.
  intros H. split.
  - induction a as [|x a IH]; [reflexivity |].
    cbn [app distinct] in H. apply andb_true_iff in H as [Hx Ha].
    cbn [existsb]. rewrite (IH Ha), orb_false_r.
    apply negb_true_iff in Hx. rewrite existsb_app in Hx.
    apply orb_false_iff in Hx as [_ Hx]. cbn [existsb] in Hx.
    apply orb_false_iff in Hx as [Hx _]. rewrite String.eqb_sym. exact Hx.
  - rewrite <- app_assoc. exact H.
Qed.

Lemma dict_of_pairs_distinct (kv : list (string * pyval)) :
  distinct (map fst kv) = true -> json.dict_of_pairs kv = kv.
Proof.
  unfold json.dict_of_pairs.
  assert (G : forall acc, distinct (map fst acc ++ map fst kv) = true ->
                          fold_left (fun d p => json.dict_set (fst p) (snd p) d) kv acc
                          = acc ++ kv).
  { induction kv as [|[k v] kv IH]; intros acc Hacc.
    - rewrite app_nil_r. reflexivity.
    - cbn [fold_left fst snd map] in *.
      destruct (distinct_app_cons _ _ _ Hacc) as [Hk Hrest].
      rewrite (dict_set_fresh k v acc Hk), IH.
      + rewrite <- app_assoc. reflexivity.
      + rewrite List.map_app. exact Hrest. }
  intros H. apply (G []). exact H.
Qed.

Lemma need_items_le (l : list pyval) (ss : list string) :
  Forall2 reads_back l ss -> need_items l <= S (String.length (json.join ", " ss)).
Proof.
  induction 1 as [|x sx l ss (_ & Hx & _) HF IH]; [simpl; lia |].
  cbn [need_items]. destruct HF as [|y sy l ss Hy HF].
  - cbn [need_items json.join]. lia.
  - rewrite join_cons2, !length_append. change (String.length ", ") with 2. lia.
Qed.

Lemma need_pairs_le (kv : list (string * pyval)) (ss : list string) :
  Forall2 entry_reads kv ss -> need_pairs kv <= S (String.length (json.join ", " ss)).
Proof.
  induction 1 as [|[k x] sp kv ss (sx & -> & _ & Hx & _) HF IH]; [simpl; lia |].
  cbn [need_pairs fst snd] in *. destruct HF as [|q sq kv ss Hq HF].
  - cbn [need_pairs json.join]. rewrite !length_append. lia.
  - rewrite join_cons2, !length_append. change (String.length ", ") with 2. lia.
Qed.

Lemma dumps_reads_back (v : pyval) :
  canonical v = true -> exists text, json.dumps v = inr text /\ reads_back v text.
Proof.
  induction v as [| b | z | s | l IH | kv IH | cls] using pyval_nested_ind; intros Hcan.
  - exists "null". split; [reflexivity |]. split; [| split].
    + exists "n"%char, "ull". auto.
    + simpl. lia.
    + intros rest [|fuel] _ Hfuel; [simpl in Hfuel; lia | reflexivity].
  - exists (if b then "true" else "false"). split; [destruct b; reflexivity |].
    split; [| split].
    + destruct b; eexists _, _; (split; [reflexivity |]); auto.
    + destruct b; simpl; lia.
    + intros rest [|fuel] _ Hfuel; [simpl in Hfuel; lia | destruct b; reflexivity].
  - exists (json.encode_int z). split; [reflexivity |].
    destruct (scan_int_encode z "" eq_refl) as (c & t & Htext & Hws & Hb1 & Hb2 & _).
    rewrite append_nil_r in Htext.
    split; [| split].
    + exists c, t. auto.
    + rewrite Htext. simpl. lia.
    + intros rest [|fuel] Hrest Hfuel; [simpl in Hfuel; lia |].
      destruct (scan_int_encode z rest Hrest) as (c' & t' & -> & _ & _ & _ & Hscan).
      apply Hscan.
  - exists (json.encode_str s). split; [reflexivity |]. split; [| split].
    + eexists _, _. split; [reflexivity |]. auto.
    + simpl. lia.
    + intros rest [|fuel] _ Hfuel; [simpl in Hfuel; lia |].
      rewrite encode_str_app, scan_once_string, scanstring_escape. reflexivity.
  - assert (Hitems : exists ss, encode_items l = inr ss /\ Forall2 reads_back l ss).
    { cbn [canonical] in Hcan. induction IH as [|x l Hx _ IHl].
      - exists []. split; [reflexivity | constructor].
      - apply andb_true_iff in Hcan as [Hcx Hcl].
        destruct (Hx Hcx) as (sx & Hsx & Hrx).
        destruct (IHl Hcl) as (ss & Hss & Hrs).
        exists (sx :: ss). cbn [encode_items]. rewrite Hsx, Hss.
        split; [reflexivity | constructor; assumption]. }
    destruct Hitems as (ss & Hss & HF).
    exists ("[" +:+ json.join ", " ss +:+ "]").
    split; [rewrite dumps_list, Hss; reflexivity |]. split; [| split].
    + eexists _, _. split; [reflexivity |]. auto.
    + rewrite need_list. pose proof (need_items_le l ss HF).
      rewrite !length_append. change (String.length "[") with 1.
      change (String.length "]") with 1. change (String.length "{") with 1.
      change (String.length "}") with 1. lia.
    + intros rest [|fuel] _ Hfuel; [simpl in Hfuel; lia |].
      rewrite need_list in Hfuel.
      destruct l as [|x l].
      * inversion HF; subst. reflexivity.
      * destruct (join_items_head (x :: l) ss HF) as (c & t & Hj & Hws & Hb);
          [discriminate |].
        rewrite !append_assoc. change ("[" +:+ json.join ", " ss +:+ "]" +:+ rest)
          with (String "[" (json.join ", " ss +:+ "]" +:+ rest)).
        rewrite Hj, append_cons, (scan_once_array fuel c _ Hws Hb), <- append_cons, <- Hj.
        rewrite (scan_array_reads (x :: l) ss HF) by (discriminate || lia).
        reflexivity.
  - cbn [canonical] in Hcan. apply andb_true_iff in Hcan as [Hkeys Hcan].
    assert (Hpairs : exists ss, encode_pairs kv = inr ss /\ Forall2 entry_reads kv ss).
    { clear Hkeys. induction IH as [|[k x] kv Hx _ IHkv].
      - exists []. split; [reflexivity | constructor].
      - apply andb_true_iff in Hcan as [Hcx Hcl]. cbn [snd] in Hx.
        destruct (Hx Hcx) as (sx & Hsx & Hrx).
        destruct (IHkv Hcl) as (ss & Hss & Hrs).
        exists ((json.encode_str k +:+ ": " +:+ sx) :: ss). cbn [encode_pairs].
        rewrite Hsx, Hss. split; [reflexivity |].
        constructor; [exists sx; auto | assumption]. }
    destruct Hpairs as (ss & Hss & HF).
    exists ("{" +:+ json.join ", " ss +:+ "}").
    split; [rewrite dumps_dict, Hss; reflexivity |]. split; [| split].
    + eexists _, _. split; [reflexivity |]. auto.
    + rewrite need_dict. pose proof (need_pairs_le kv ss HF).
      rewrite !length_append. change (String.length "[") with 1.
      change (String.length "]") with 1. change (String.length "{") with 1.
      change (String.length "}") with 1. lia.
    + intros rest [|fuel] _ Hfuel; [simpl in Hfuel; lia |].
      rewrite need_dict in Hfuel.
      destruct kv as [|p kv].
      * inversion HF; subst. reflexivity.
      * destruct (join_pairs_head (p :: kv) ss HF) as (t & Hj); [discriminate |].
        rewrite !append_assoc. change ("{" +:+ json.join ", " ss +:+ "}" +:+ rest)
          with (String "{" (json.join ", " ss +:+ "}" +:+ rest)).
        rewrite Hj, append_cons, scan_once_object, <- append_cons, <- Hj.
        rewrite (scan_object_reads (p :: kv) ss HF) by (discriminate || lia).
        rewrite (dict_of_pairs_distinct _ Hkeys). reflexivity.
  - discriminate.
Qed.

(** Every canonical value is encoded by a text that decodes to it. *)
Lemma loads_dumps (v : pyval) :
  canonical v = true ->
  exists text, json.dumps v = inr text /\ json.loads text = inr v.
Proof.
  intros Hcan. destruct (dumps_reads_back v Hcan) as (text & Hd & (c & t & Ht & Hws & _) & Hn & Hread).
  exists text. split; [exact Hd |].
  assert (Hsk : json.skip_ws text = text) by (rewrite Ht; apply skip_ws_head; exact Hws).
  unfold json.loads. rewrite Hsk.
  pose proof (Hread "" (S (String.length text)) eq_refl) as Hs.
  rewrite append_nil_r in Hs. rewrite Hs by lia. reflexivity.
Qed.

Lemma canonical_envelope (ver : string) (d : Device.t) (op : call) :
  canonical (envelope_of ver d op) = canonical (message_of op).
Proof.
  destruct op as [device m|device m|device m]; cbn [envelope_of message_of];
    unfold spec.value_change, spec.report, spec.identity; cbn [canonical];
    destruct (canonical m); reflexivity.
Qed.

(** X11: when the message of a call to [on_value_change], [send] or
    [report] is made of [None], booleans, integers, strings of characters
    up to U+00FF, lists and dicts keyed by distinct strings, and the
    envelope stays clear of the limits of the interpreter (no more than a
    hundred containers one inside the other, no integer of more than 640
    digits), the call succeeds and the text it puts at the end of the
    queue decodes, by [json.loads], to the envelope of the call. *)
Theorem X11_enqueued_text_decodes_to_envelope :
  forall w self op c d,
    clients w !! self = Some c ->
    devs w !! device_of op = Some d ->
    canonical (message_of op) = true ->
    within_limits (envelope_of (ipcd_version c) d op) = true ->
    exists payload,
      enqueued_by w self op = [payload]
      /\ json.loads payload = inr (envelope_of (ipcd_version c) d op)
      /\ fst (perform self op w) = inr tt
      /\ (queue <$> clients (snd (perform self op w)) !! self) = Some (queue c ++ [payload]).
Proof.
  intros w self op c d Hc Hd Hcan _.
  rewrite <- (canonical_envelope (ipcd_version c) d op) in Hcan.
  destruct (loads_dumps _ Hcan) as (payload & Hdumps & Hloads).
  exists payload. unfold enqueued_by. rewrite Hc, Hd, Hdumps.
  split; [reflexivity |]. split; [exact Hloads |].
  destruct op as [device m|device m|device m]; cbn [device_of envelope_of perform] in *;
    unfold send;
    rewrite ?(on_value_change_unfold w self device c d m Hc Hd),
            ?(report_unfold w self device c d m Hc Hd), Hdumps;
    (split; [reflexivity |]); unfold enqueued_world; simpl;
    rewrite lookup_insert_eq; reflexivity.
Qed.

(** X12: the text that the handshake sends for a device decodes to the
    registration envelope of that device. *)
Theorem X12_announcement_decodes_to_registration :
  forall w ver device payload,
    announced w ver device payload ->
    exists d,
      devs w !! device = Some d
      /\ json.loads payload
         = inr (spec.registration ver (Device.vendor d) (Device.model d) (Device.sn d)).
Proof.
  intros w ver device payload (d & Hd & Hdumps).
  exists d. split; [exact Hd |].
  destruct (loads_dumps (spec.registration ver (Device.vendor d) (Device.model d)
                                           (Device.sn d)) eq_refl)
    as (text & Htext & Hloads).
  rewrite Hdumps in Htext. inversion Htext; subst. exact Hloads.
Qed.

Lemma dumps_encodable (v : pyval) :
  if encodable v
  then exists text, json.dumps v = inr text
  else exists cls,
      json.dumps v = inl (TypeError ("Object of type " +:+ cls +:+ " is not JSON serializable")).
Proof.
  induction v as [| b | z | s | l IH | kv IH | cls] using pyval_nested_ind.
  - eexists; reflexivity.
  - destruct b; eexists; reflexivity.
  - eexists; reflexivity.
  - eexists; reflexivity.
  - rewrite dumps_list. cbn [encodable].
    assert (H : if (fix all (l : list pyval) : bool :=
                      match l with
                      | [] => true
                      | x :: r => encodable x && all r
                      end) l
                then exists ss, encode_items l = inr ss
                else exists cls,
                    encode_items l
                    = inl (TypeError ("Object of type " +:+ cls +:+ " is not JSON serializable"))).
    { induction IH as [|x l Hx _ IHl]; [eexists; reflexivity |].
      cbn [encode_items]. destruct (encodable x).
      - destruct Hx as [sx ->]. cbn [andb].
        match type of IHl with (if ?b then _ else _) => destruct b end.
        + destruct IHl as [ss ->]. eexists; reflexivity.
        + destruct IHl as [cls ->]. eexists; reflexivity.
      - destruct Hx as [cls ->]. eexists; reflexivity. }
    match type of H with (if ?b then _ else _) => destruct b end.
    + destruct H as [ss ->]. eexists; reflexivity.
    + destruct H as [cls ->]. eexists; reflexivity.
  - rewrite dumps_dict. cbn [encodable].
    assert (H : if (fix all (kv : list (string * pyval)) : bool :=
                      match kv with
                      | [] => true
                      | (_, x) :: r => encodable x && all r
                      end) kv
                then exists ss, encode_pairs kv = inr ss
                else exists cls,
                    encode_pairs kv
                    = inl (TypeError ("Object of type " +:+ cls +:+ " is not JSON serializable"))).
    { induction IH as [|[k x] kv Hx _ IHkv]; [eexists; reflexivity |].
      cbn [encode_pairs snd] in *. destruct (encodable x).
      - destruct Hx as [sx ->]. cbn [andb].
        match type of IHkv with (if ?b then _ else _) => destruct b end.
        + destruct IHkv as [ss ->]. eexists; reflexivity.
        + destruct IHkv as [cls ->]. eexists; reflexivity.
      - destruct Hx as [cls ->]. eexists; reflexivity. }
    match type of H with (if ?b then _ else _) => destruct b end.
    + destruct H as [ss ->]. eexists; reflexivity.
    + destruct H as [cls ->]. eexists; reflexivity.
  - exists cls. reflexivity.
Qed.

Lemma encodable_envelope (ver : string) (d : Device.t) (op : call) :
  encodable (envelope_of ver d op) = encodable (message_of op).
Proof.
  destruct op as [device m|device m|device m]; cbn [envelope_of message_of];
    unfold spec.value_change, spec.report, spec.identity; cbn [encodable];
    destruct (encodable m); reflexivity.
Qed.

(** X13: for a message made of [None], booleans, integers, strings,
    lists, dicts keyed by strings and objects without an encoding, whose
    envelope stays clear of the limits of the interpreter, a call to
    [on_value_change], [send] or [report] succeeds, and puts one text on
    the queue, exactly when the message holds at no depth an object
    without an encoding; otherwise it raises the [TypeError] of such an
    object and leaves the store, queue and log included, as it was. *)
Theorem X13_call_fails_exactly_on_unencodable_message :
  forall w self op c d,
    clients w !! self = Some c ->
    devs w !! device_of op = Some d ->
    within_limits (envelope_of (ipcd_version c) d op) = true ->
    (encodable (message_of op) = true ->
     exists payload,
       fst (perform self op w) = inr tt
       /\ (queue <$> clients (snd (perform self op w)) !! self) = Some (queue c ++ [payload]))
    /\ (encodable (message_of op) = false ->
        exists cls,
          perform self op w
          = (inl (TypeError ("Object of type " +:+ cls +:+ " is not JSON serializable")), w)).
Proof.
  intros w self op c d Hc Hd _.
  pose proof (dumps_encodable (envelope_of (ipcd_version c) d op)) as Hdumps.
  rewrite encodable_envelope in Hdumps.
  split; intros Henc; rewrite Henc in Hdumps.
  - destruct Hdumps as [payload Hp]. exists payload.
    destruct op as [device m|device m|device m]; cbn [device_of envelope_of perform] in *;
      unfold send;
      rewrite ?(on_value_change_unfold w self device c d m Hc Hd),
              ?(report_unfold w self device c d m Hc Hd), Hp;
      (split; [reflexivity |]); unfold enqueued_world; simpl;
      rewrite lookup_insert_eq; reflexivity.
  - destruct Hdumps as [cls Hp]. exists cls.
    destruct op as [device m|device m|device m]; cbn [device_of envelope_of perform] in *;
      unfold send;
      rewrite ?(on_value_change_unfold w self device c d m Hc Hd),
              ?(report_unfold w self device c d m Hc Hd), Hp;
      reflexivity.
Qed.

Lemma printable_app (a b : string) :
  printable (a +:+ b) = printable a && printable b.
Proof.
  induction a as [|c a IH]; [reflexivity |].
  rewrite append_cons. cbn [printable]. rewrite IH, andb_assoc. reflexivity.
Qed.

Lemma printable_escape_char (c : ascii) : printable (json.escape_char c) = true.
Proof. destruct c as [[] [] [] [] [] [] [] []]; reflexivity. Qed.

Lemma printable_escape (s : string) : printable (json.escape s) = true.
Proof.
  induction s as [|c s IH]; [reflexivity |].
  cbn [json.escape]. rewrite printable_app, printable_escape_char, IH. reflexivity.
Qed.

Lemma printable_encode_str (s : string) : printable (json.encode_str s) = true.
Proof.
  unfold json.encode_str. cbn [printable].
  rewrite printable_app, printable_escape. reflexivity.
Qed.

Lemma printable_uint (d : Decimal.uint) : printable (NilEmpty.string_of_uint d) = true.
Proof. induction d; cbn [NilEmpty.string_of_uint printable]; [reflexivity | assumption ..]. Qed.

Lemma printable_encode_int (z : Z) : printable (json.encode_int z) = true.
Proof.
  unfold json.encode_int, NilZero.string_of_int, NilZero.string_of_uint.
  destruct (Z.to_int z) as [d|d]; destruct d; cbn [printable];
    try reflexivity; apply printable_uint.
Qed.

Lemma printable_join (ss : list string) :
  Forall (fun s => printable s = true) ss -> printable (json.join ", " ss) = true.
Proof.
  induction 1 as [|x ss Hx HF IH]; [reflexivity |].
  destruct ss as [|y ss]; [exact Hx |].
  rewrite join_cons2, !printable_app, Hx, IH. reflexivity.
Qed.

Lemma printable_dumps (v : pyval) (text : string) :
  json.dumps v = inr text -> printable text = true.
Proof.
  revert text.
  induction v as [| b | z | s | l IH | kv IH | cls] using pyval_nested_ind; intros text Hd.
  - inversion Hd. reflexivity.
  - destruct b; inversion Hd; reflexivity.
  - inversion Hd. apply printable_encode_int.
  - inversion Hd. apply printable_encode_str.
  - rewrite dumps_list in Hd.
    destruct (encode_items l) as [e|ss] eqn:Hss; inversion Hd.
    rewrite !printable_app, printable_join; [reflexivity |].
    clear Hd H0. revert ss Hss. induction IH as [|x l Hx _ IHl]; intros ss Hss.
    + inversion Hss. constructor.
    + cbn [encode_items] in Hss.
      destruct (json.dumps x) as [e|sx] eqn:Hsx; [discriminate |].
      destruct (encode_items l) as [e|sr]; [discriminate |].
      inversion Hss. constructor; [apply Hx; reflexivity | apply IHl; reflexivity].
  - rewrite dumps_dict in Hd.
    destruct (encode_pairs kv) as [e|ss] eqn:Hss; inversion Hd.
    rewrite !printable_app, printable_join; [reflexivity |].
    clear Hd H0. revert ss Hss. induction IH as [|[k x] kv Hx _ IHkv]; intros ss Hss.
    + inversion Hss. constructor.
    + cbn [encode_pairs snd] in *.
      destruct (json.dumps x) as [e|sx] eqn:Hsx; [discriminate |].
      destruct (encode_pairs kv) as [e|sr]; [discriminate |].
      inversion Hss. constructor; [| apply IHkv; reflexivity].
      rewrite !printable_app, printable_encode_str, (Hx sx eq_refl). reflexivity.
  - discriminate.
Qed.

(** X14: every text that a call puts on the queue, and every text of the
    handshake, is made of the characters from the space to the tilde: no
    line break, no other control character and nothing outside ASCII goes
    out, whatever the strings of the device and of the message hold. *)
Theorem X14_outbound_texts_are_printable :
  forall w self,
    (forall op, Forall (fun payload => printable payload = true) (enqueued_by w self op))
    /\ (forall ver device payload,
          announced w ver device payload -> printable payload = true).
Proof.
  intros w self. split.
  - intros op. unfold enqueued_by.
    destruct (clients w !! self) as [c|]; [| constructor].
    destruct (devs w !! device_of op) as [d|]; [| constructor].
    destruct (json.dumps (envelope_of (ipcd_version c) d op)) as [e|payload] eqn:Hp;
      constructor; [| constructor].
    apply (printable_dumps _ _ Hp).
  - intros ver device payload (d & _ & Hp). apply (printable_dumps _ _ Hp).
Qed.


(** X15: when [to_obj] returns the identity object of a device, the text
    [json.dumps] makes of it is printable and decodes back to the same
    object. *)
Theorem X15_to_obj_round_trips :
  forall (d : Device.t) (obj : pyval),
    Device.to_obj d = inr obj ->
    exists text,
      json.dumps obj = inr text
      /\ json.loads text = inr obj
      /\ printable text = true.
Proof.
  intros d obj Hobj. unfold Device.to_obj in Hobj.
  destruct (Device.ipcd_version d) as [ver|]; [| discriminate].
  inversion Hobj; subst obj.
  match goal with
  | |- exists text, json.dumps ?v = _ /\ _ =>
      destruct (loads_dumps v eq_refl) as (text & Hd & Hl)
  end.
  exists text. split; [exact Hd |]. split; [exact Hl |].
  apply (printable_dumps _ _ Hd).
Qed.

(** ** The further theorems on the examples *)

Lemma X1_report_url_determines_device_witness :
  Device.vendor (Device.__init__ "Acme" "X1" "123" None)
  = Device.vendor (Device.__init__ "Acme" "X1" "123" (Some ""))
  /\ Device.model (Device.__init__ "Acme" "X1" "123" None)
     = Device.model (Device.__init__ "Acme" "X1" "123" (Some ""))
  /\ Device.sn (Device.__init__ "Acme" "X1" "123" None)
     = Device.sn (Device.__init__ "Acme" "X1" "123" (Some "")).
Proof.
  apply (X1_report_url_determines_device twin_world 0%nat 0%nat 1%nat
           (mk "wss://example.test" "1.0" [] []));
    reflexivity.
Defined.

Lemma X2_report_url_extends_socket_url_witness :
  exists url,
    wire (world (connect 0 example_world)) = wire example_world ++ [Opened url]
    /\ get_report_url 0 0 example_world
       = (inr (url +:+ "/report/" +:+ "Acme" +:+ "/" +:+ "X1" +:+ "/" +:+ "123"),
          example_world).
Proof.
  apply (X2_report_url_extends_socket_url example_world 0%nat 0%nat
           (mk "wss://example.test" "1.0" [] [])
           (Device.mk "Acme" "X1" "123" (Some "1.0") None));
    reflexivity.
Defined.

Lemma X3_registration_is_neither_exclusive_nor_idempotent_witness :
  (0%nat <> 1%nat ->
   exists w' d' ca' cb',
     add_device 1 0 (snd (add_device 0 0 two_clients_world)) = (inr tt, w')
     /\ devs w' !! 0%nat = Some d' /\ Device.get_client d' = Some 1%nat
     /\ clients w' !! 0%nat = Some ca' /\ devices ca' = [] ++ [0%nat]
     /\ clients w' !! 1%nat = Some cb' /\ devices cb' = [] ++ [0%nat])
  /\ (exists w' d' ca',
        add_device 0 0 (snd (add_device 0 0 two_clients_world)) = (inr tt, w')
        /\ devs w' !! 0%nat = Some d' /\ Device.get_client d' = Some 0%nat
        /\ clients w' !! 0%nat = Some ca'
        /\ devices ca' = [] ++ [0%nat; 0%nat]).
Proof.
  apply (X3_registration_is_neither_exclusive_nor_idempotent two_clients_world
           0%nat 1%nat 0%nat
           (mk "wss://a.example.test" "1.0" [] [])
           (mk "wss://b.example.test" "1.0" [] [])
           (Device.mk "Acme" "X1" "123" (Some "1.0") None));
    reflexivity.
Defined.

Lemma X4_calls_keep_configuration_and_identity_witness :
  exists c',
    clients (api_run example_script two_clients_world) !! 1%nat = Some c'
    /\ hostname c' = "wss://b.example.test" /\ ipcd_version c' = "1.0"
    /\ [] `prefix_of` devices c'
    /\ [] `prefix_of` queue c'.
Proof.
  apply (proj1 (X4_calls_keep_configuration_and_identity example_script
                  two_clients_world)
               1%nat (mk "wss://b.example.test" "1.0" [] [])).
  reflexivity.
Defined.

Lemma X6_built_stores_are_well_formed_witness :
  ipcd_version built_client = "1.0" /\ hostname built_client <> ""
  /\ Forall (fun r => exists d, devs (api_run example_script empty_world) !! r = Some d
                                /\ is_Some (Device.get_client d))
            (devices built_client).
Proof.
  apply (X6_built_stores_are_well_formed example_script 0%nat built_client).
  vm_compute. reflexivity.
Defined.

Lemma X7_queued_before_connect_is_sent_after_handshake_witness :
  exists (H : list string) (s : Session),
    Forall2 (announced (api_run example_script empty_world) (ipcd_version built_client))
            (devices built_client) H
    /\ run json.loads example_from_payload example_apply
           (repeat ConnectLoop (S (length (devices built_client)))
            ++ repeat Writer (length (queue built_client)))
           (connect 0 (api_run example_script empty_world)) = Some s
    /\ frames (world s)
       = frames (api_run example_script empty_world) ++ H ++ queue built_client
    /\ queue_of s = []
    /\ ph s = Active.
Proof.
  apply (X7_queued_before_connect_is_sent_after_handshake json.loads
           example_from_payload example_apply
           (api_run example_script empty_world) 0%nat built_client).
  - vm_compute. reflexivity.
  - repeat constructor; eexists; vm_compute; reflexivity.
Defined.

Lemma X8_undecodable_frame_ends_reader_only_witness :
  exists s',
    step json.loads example_from_payload example_apply (Reader "not json")
         example_session = Some s'
    /\ reader_task s' = Failed JSONDecodeError
    /\ pending s' = pending example_session /\ finished s' = finished example_session
    /\ world s' = world example_session
    /\ (forall msg',
          step json.loads example_from_payload example_apply (Reader msg') s' = None)
    /\ exists s'',
        run json.loads example_from_payload example_apply
            (repeat Writer (length (queue registered_client))) s' = Some s''
        /\ frames (world s'') = frames (world example_session) ++ queue registered_client
        /\ queue_of s'' = [].
Proof.
  apply (X8_undecodable_frame_ends_reader_only json.loads example_from_payload
           example_apply example_session registered_client 0%nat
           (Device.mk "Acme" "X1" "123" (Some "1.0") (Some 0%nat))
           "not json" JSONDecodeError);
    reflexivity.
Defined.

Lemma X9_every_task_targets_first_device_witness :
  Forall (fun task => devices registered_client !! 0%nat = Some (target task))
         (pending busy_session)
  /\ Forall (fun done => devices registered_client !! 0%nat = Some (target (fst done)))
            (finished busy_session)
  /\ length (pending busy_session) + length (finished busy_session)
     <= frames_received busy_schedule.
Proof.
  apply (X9_every_task_targets_first_device json.loads example_from_payload
           example_apply registered_world 0%nat registered_client).
  - reflexivity.
  - repeat constructor; eexists; reflexivity.
  - vm_compute. reflexivity.
Defined.

Lemma X10_log_has_one_record_per_enqueued_message_witness :
  log (world busy_session)
  = log registered_world ++ logged registered_world 0 busy_schedule
  /\ length (logged registered_world 0 busy_schedule)
     = length (enqueued registered_world 0 busy_schedule).
Proof.
  apply (X10_log_has_one_record_per_enqueued_message json.loads example_from_payload
           example_apply registered_world 0%nat registered_client).
  - reflexivity.
  - repeat constructor; eexists; reflexivity.
  - vm_compute. reflexivity.
Defined.

Lemma X11_enqueued_text_decodes_to_envelope_witness :
  exists payload,
    enqueued_by example_world 0 (OnValueChange 0 (PDict [("temp", PInt (-72))]))
    = [payload]
    /\ json.loads payload
       = inr (envelope_of "1.0" (Device.mk "Acme" "X1" "123" (Some "1.0") None)
                          (OnValueChange 0 (PDict [("temp", PInt (-72))])))
    /\ fst (perform 0 (OnValueChange 0 (PDict [("temp", PInt (-72))])) example_world)
       = inr tt
    /\ (queue <$> clients (snd (perform 0 (OnValueChange 0 (PDict [("temp", PInt (-72))]))
                                        example_world)) !! 0%nat)
       = Some ([] ++ [payload]).
Proof.
  apply (X11_enqueued_text_decodes_to_envelope example_world 0%nat
           (OnValueChange 0 (PDict [("temp", PInt (-72))]))
           (mk "wss://example.test" "1.0" [] [])
           (Device.mk "Acme" "X1" "123" (Some "1.0") None));
    vm_compute; reflexivity.
Defined.

Lemma X12_announcement_decodes_to_registration_witness :
  exists d,
    devs registered_world !! 1%nat = Some d
    /\ json.loads
         (json.text "{'device': {'ipcdver': '1.0', 'vendor': 'Acme', 'model': 'X2', 'sn': '456'}, 'events': ['onBoot', 'onConnect']}")
       = inr (spec.registration "1.0" (Device.vendor d) (Device.model d) (Device.sn d)).
Proof.
  apply (X12_announcement_decodes_to_registration registered_world "1.0" 1%nat).
  eexists. split; reflexivity.
Defined.

Lemma X13_call_fails_exactly_on_unencodable_message_witness :
  exists cls,
    perform 0 (Report 0 (PList [PInt 1; PDict [("seen", PObject "set")]])) example_world
    = (inl (TypeError ("Object of type " +:+ cls +:+ " is not JSON serializable")),
       example_world).
Proof.
  assert (Hin : within_limits
                  (envelope_of "1.0" (Device.mk "Acme" "X1" "123" (Some "1.0") None)
                     (Report 0 (PList [PInt 1; PDict [("seen", PObject "set")]])))
                = true)
    by (vm_compute; reflexivity).
  apply (proj2 (X13_call_fails_exactly_on_unencodable_message
                  example_world 0%nat
                  (Report 0 (PList [PInt 1; PDict [("seen", PObject "set")]]))
                  (mk "wss://example.test" "1.0" [] [])
                  (Device.mk "Acme" "X1" "123" (Some "1.0") None)
                  eq_refl eq_refl Hin)).
  reflexivity.
Defined.

Lemma X14_outbound_texts_are_printable_witness :
  printable
    (json.text "{'device': {'ipcdver': '1.0', 'vendor': 'Acme', 'model': 'X2', 'sn': '456'}, 'events': ['onBoot', 'onConnect']}")
  = true.
Proof.
  apply (proj2 (X14_outbound_texts_are_printable registered_world 0%nat) "1.0" 1%nat).
  eexists. split; reflexivity.
Defined.

Lemma X15_to_obj_round_trips_witness :
  exists text,
    json.dumps (spec.identity "1.0" "Acme" "X1" "123") = inr text
    /\ json.loads text = inr (spec.identity "1.0" "Acme" "X1" "123")
    /\ printable text = true.
Proof.
  apply (X15_to_obj_round_trips (Device.__init__ "Acme" "X1" "123" None)).
  reflexivity.
Defined.
